(** * Verification of [lib/charm/vault.py] (charm-vault)

    A shallow embedding of the charm's vault helper library.  The Python
    module drives three external collaborators: the Juju hook environment
    ([hookenv]: leadership, leader settings, configuration, logging), the
    process supervisor ([host]: service start / restart) and the Vault
    server (through [requests] and the [hvac] client).  Each function of
    the module is embedded as a computation in a state-and-exception monad
    over a [World] that holds those collaborators; a run also yields the
    list of the effects the function performed, in order. *)

From Stdlib Require Import ZArith Lia Ascii.
From stdpp Require Import base option list strings gmap pretty.

Open Scope string_scope.
Open Scope Z_scope.

(** ** Text helpers *)

(** The double quote and the line feed, the two characters of the source's
    literals that are built from their codes here. *)
Definition dq : string := String (Ascii.ascii_of_nat 34) EmptyString.
Definition nl : string := String (Ascii.ascii_of_nat 10) EmptyString.

Definition quoted (s : string) : string := dq +:+ s +:+ dq.

(** [", ".join(l)] and ["\n".join(l)] *)
Fixpoint join (sep : string) (l : list string) : string :=
  match l with
  | [] => EmptyString
  | [s] => s
  | s :: rest => s +:+ sep +:+ join sep rest
  end.

(** Python truthiness of an optional string: [None] and the empty string
    are falsy. *)
Definition truthy (o : option string) : bool :=
  match o with
  | None => false
  | Some s => negb (String.eqb s EmptyString)
  end.

(** [s.rstrip('/')]: the string without the slashes at its end. *)
Fixpoint rstrip_slash (s : string) : string :=
  match s with
  | EmptyString => EmptyString
  | String a rest =>
      match rstrip_slash rest with
      | EmptyString => if Ascii.eqb a "/" then EmptyString
                       else String a EmptyString
      | rest' => String a rest'
      end
  end.

(** ** Module constants *)

Definition CHARM_ACCESS_ROLE : string := "local-charm-access".
Definition CHARM_ACCESS_ROLE_ID : string := "local-charm-access-id".
Definition CHARM_POLICY_NAME : string := "local-charm-policy".

(** One [path "p" { capabilities = [...] }] stanza of a policy, as the
    three lines the source's literal spells out. *)
Definition hcl_path (p : string) (caps : list string) : list string :=
  [ "path " +:+ quoted p +:+ " {";
    "  capabilities = [" +:+ join ", " (quoted <$> caps) +:+ "]";
    "}" ].

Definition CHARM_POLICY : string :=
  join nl
    ( [ EmptyString;
        "# Allow managment of policies starting with charm- prefix" ]
      ++ hcl_path "sys/policy/charm-*" ["create"; "read"; "update"; "delete"]
      ++ [ EmptyString; "# Allow discovery of all policies" ]
      ++ hcl_path "sys/policy/" ["list"]
      ++ [ EmptyString; "# Allow management of approle's with charm- prefix" ]
      ++ hcl_path "auth/approle/role/charm-*"
           ["create"; "read"; "update"; "delete"; "list"]
      ++ [ EmptyString; "# Allow discovery of approles" ]
      ++ hcl_path "auth/approle/role" ["read"]
      ++ hcl_path "auth/approle/role/" ["list"]
      ++ [ EmptyString;
           "# Allow charm- prefixes secrets backends to be mounted and managed" ]
      ++ hcl_path "sys/mounts/charm-*"
           ["create"; "read"; "update"; "delete"; "sudo"]
      ++ [ EmptyString; "# Allow discovery of secrets backends" ]
      ++ hcl_path "sys/mounts" ["read"]
      ++ hcl_path "sys/mounts/" ["list"] ).

Definition VAULT_LOCALHOST_URL : string := "http://127.0.0.1:8220".

(** [VAULT_HEALTH_URL.format(vault_addr=a)] *)
Definition VAULT_HEALTH_URL (vault_addr : string) : string :=
  vault_addr +:+ "/v1/sys/health".

(** [SECRET_BACKEND_HCL.format(backend=b, hostname=h)] *)
Definition SECRET_BACKEND_HCL (backend hostname : string) : string :=
  join nl
    ( [ EmptyString ]
      ++ hcl_path (backend +:+ "/" +:+ hostname +:+ "/*")
           ["create"; "read"; "update"; "delete"; "list"]
      ++ [ EmptyString ] ).

(** [SECRET_BACKEND_SHARED_HCL.format(backend=b)] *)
Definition SECRET_BACKEND_SHARED_HCL (backend : string) : string :=
  join nl
    ( [ EmptyString ]
      ++ hcl_path (backend +:+ "/*")
           ["create"; "read"; "update"; "delete"; "list"]
      ++ [ EmptyString ] ).

(** ** Exceptions *)

(** Errors the Vault server answers with; [hvac] raises each of them as an
    exception of its own ([InvalidRequest], [VaultDown], ...). *)
Inductive ApiError :=
| AlreadyInitialized
| NotInitialized
| VaultSealed
| InvalidKey
| PathInUse (path : string)
| NoSuchRole (name : string).

Inductive Exn :=
| ConnectionError (msg : string)   (* requests: transport-level failure *)
| KeyError (key : string)          (* dict subscript on a missing key *)
| JSONDecodeError (doc : string)   (* json.loads on a malformed document *)
| VaultError (e : ApiError)        (* hvac.exceptions.* *)
| NotImplementedError
| RetryError.                      (* tenacity, when it does not re-raise *)

(** ** The Vault server *)

(** Keyword options of [create_role]. *)
Record RoleSpec := mkRoleSpec {
  token_ttl : string;
  token_max_ttl : string;
  policies : list string;
  bind_secret_id : string;
  bound_cidr_list : string
}.

(** The Vault server behind the remote administrative API, an external
    collaborator of the module (RemoteAPIClient in the specification's
    section 6), reduced to what the module's calls observe.  It keeps
    the two health flags, the secrets it hands out when it is initialised,
    the unseal progress against its threshold, and the tables of auth
    backends, policies, roles and secret-backend mounts.  A mount made at
    the path [p] of a request is listed as [p/].  The server does not look
    at the token of a request: which requests a token entitles to is left
    out, and the properties below speak of a server that answers. *)
Record Server := mkServer {
  initialized : bool;
  sealed : bool;
  fresh_root_token : string;
  fresh_keys : list string;
  key_shares : list string;
  threshold : Z;
  progress : list string;
  auth_backends : list string;
  policy_store : gmap string string;
  role_store : gmap string RoleSpec;
  role_id_of : string → string;
  secret_backends : list string
}.

Definition Handler (A : Type) : Type := Server → (ApiError + A) * Server.

Record Health := mkHealth { h_initialized : bool; h_sealed : bool }.

Definition srv_health : Handler Health :=
  λ s, (inr (mkHealth (initialized s) (sealed s)), s).

Definition srv_is_initialized : Handler bool :=
  λ s, (inr (initialized s), s).

Definition srv_is_sealed : Handler bool :=
  λ s, if initialized s then (inr (sealed s), s) else (inl NotInitialized, s).

(** A freshly initialised server is sealed; it hands out its root token and
    key shares once. *)
Definition srv_initialize (shares thresh : Z) : Handler (string * list string) :=
  λ s, if initialized s then (inl AlreadyInitialized, s)
       else (inr (fresh_root_token s, fresh_keys s),
             mkServer true true (fresh_root_token s) (fresh_keys s)
               (fresh_keys s) thresh [] (auth_backends s) (policy_store s)
               (role_store s) (role_id_of s) (secret_backends s)).

Definition with_seal (b : bool) (p : list string) (s : Server) : Server :=
  mkServer (initialized s) b (fresh_root_token s) (fresh_keys s)
    (key_shares s) (threshold s) p (auth_backends s) (policy_store s)
    (role_store s) (role_id_of s) (secret_backends s).

(** The server's own threshold logic: a key that is one of its shares counts
    once; when the threshold is reached the server unseals.  Keys sent to
    an unsealed server change nothing. *)
Definition srv_unseal (key : string) : Handler unit :=
  λ s, if negb (initialized s) then (inl NotInitialized, s)
       else if negb (sealed s) then (inr tt, s)
       else if negb (bool_decide (key ∈ key_shares s)) then (inl InvalidKey, s)
       else
         let p := if bool_decide (key ∈ progress s) then progress s
                  else key :: progress s in
         if threshold s <=? Z.of_nat (length p)
         then (inr tt, with_seal false [] s)
         else (inr tt, with_seal true p s).

(** The administrative endpoints answer only on an initialised, unsealed
    server.  The token of the request is not looked at. *)
Definition guarded {A} (h : Handler A) : Handler A :=
  λ s, if negb (initialized s) then (inl NotInitialized, s)
       else if sealed s then (inl VaultSealed, s)
       else h s.

Definition srv_list_auth_backends : Handler (list string) :=
  guarded (λ s, (inr (auth_backends s), s)).

Definition srv_enable_auth_backend (backend_type : string) : Handler unit :=
  guarded (λ s,
    let path := backend_type +:+ "/" in
    if bool_decide (path ∈ auth_backends s) then (inl (PathInUse path), s)
    else (inr tt,
          mkServer (initialized s) (sealed s) (fresh_root_token s)
            (fresh_keys s) (key_shares s) (threshold s) (progress s)
            (path :: auth_backends s) (policy_store s) (role_store s)
            (role_id_of s) (secret_backends s))).

Definition srv_set_policy (name hcl : string) : Handler unit :=
  guarded (λ s,
    (inr tt,
     mkServer (initialized s) (sealed s) (fresh_root_token s)
       (fresh_keys s) (key_shares s) (threshold s) (progress s)
       (auth_backends s) (<[name := hcl]> (policy_store s)) (role_store s)
       (role_id_of s) (secret_backends s))).

Definition srv_create_role (name : string) (spec : RoleSpec) : Handler unit :=
  guarded (λ s,
    (inr tt,
     mkServer (initialized s) (sealed s) (fresh_root_token s)
       (fresh_keys s) (key_shares s) (threshold s) (progress s)
       (auth_backends s) (policy_store s) (<[name := spec]> (role_store s))
       (role_id_of s) (secret_backends s))).

Definition srv_get_role_id (name : string) : Handler string :=
  guarded (λ s,
    match role_store s !! name with
    | Some _ => (inr (role_id_of s name), s)
    | None => (inl (NoSuchRole name), s)
    end).

Definition srv_list_secret_backends : Handler (list string) :=
  guarded (λ s, (inr (secret_backends s), s)).

Definition srv_enable_secret_backend
    (backend_type description mount_point : string) : Handler unit :=
  guarded (λ s,
    let path := mount_point +:+ "/" in
    if bool_decide (path ∈ secret_backends s) then (inl (PathInUse path), s)
    else (inr tt,
          mkServer (initialized s) (sealed s) (fresh_root_token s)
            (fresh_keys s) (key_shares s) (threshold s) (progress s)
            (auth_backends s) (policy_store s) (role_store s)
            (role_id_of s) (path :: secret_backends s))).

(** A process that has just been started holds no master key. *)
Definition reboot (s : Server) : Server := with_seal true [] s.

(** ** Effects *)

Inductive ApiCall :=
| HttpGet (url : string)
| IsInitialized
| IsSealed
| Initialize (shares thresh : Z)
| Unseal (key : string)
| ListAuthBackends
| EnableAuthBackend (backend_type : string)
| SetPolicy (name hcl : string)
| CreateRole (name : string) (spec : RoleSpec)
| GetRoleId (name : string)
| ListSecretBackends
| EnableSecretBackend (backend_type description mount_point : string).

Inductive Outcome :=
| Answered
| Refused (e : ApiError)
| Lost (msg : string).

(** What a hook run does to the outside: log lines, actions of the process
    supervisor, writes to the leader settings, and requests to the server
    (with the token the client sent and what came of the request). *)
Inductive Event :=
| Log (msg : string)
| ServiceStart (name : string)
| ServiceRestart (name : string)
| LeaderSet (settings : list (string * string))
| Request (token : option string) (call : ApiCall) (outcome : Outcome).

(** ** The world a hook runs in *)

Record World := mkWorld {
  vault_running : bool;                 (* host.service_running('vault') *)
  charm_config : gmap string bool;      (* hookenv.config, boolean options *)
  reactive_states : list string;        (* charms.reactive flags that are set *)
  network_primary : string → option string;  (* None: NotImplementedError *)
  private_ip : string;
  leader_oracle : nat → bool;           (* answer of the n-th is-leader query *)
  leader_asked : nat;
  leader_db : gmap string string;       (* leader settings *)
  wire : nat → option string;           (* transport failure of the n-th request *)
  sent : nat;
  server : Server
}.

(** One more request went over the wire and left the server in state [s]. *)
Definition after_request (s : Server) (w : World) : World :=
  mkWorld (vault_running w) (charm_config w) (reactive_states w)
    (network_primary w) (private_ip w) (leader_oracle w) (leader_asked w)
    (leader_db w) (wire w) (S (sent w)) s.

Definition with_leader_asked (w : World) : World :=
  mkWorld (vault_running w) (charm_config w) (reactive_states w)
    (network_primary w) (private_ip w) (leader_oracle w) (S (leader_asked w))
    (leader_db w) (wire w) (sent w) (server w).

Definition with_leader_db (db : gmap string string) (w : World) : World :=
  mkWorld (vault_running w) (charm_config w) (reactive_states w)
    (network_primary w) (private_ip w) (leader_oracle w) (leader_asked w)
    db (wire w) (sent w) (server w).

Definition with_process (running : bool) (s : Server) (w : World) : World :=
  mkWorld running (charm_config w) (reactive_states w)
    (network_primary w) (private_ip w) (leader_oracle w) (leader_asked w)
    (leader_db w) (wire w) (sent w) s.

(** ** The hook monad: state, exceptions and the effects performed *)

Inductive Result (A : Type) :=
| Ok (a : A)
| Raised (e : Exn).
Arguments Ok {A} a.
Arguments Raised {A} e.

(** What running a computation gives: the value returned or the exception
    raised, the world it leaves, and the effects it performed, oldest first. *)
Record Run (A : Type) := mkRun {
  returned : Result A;
  world_after : World;
  effects : list Event
}.
Arguments mkRun {A} _ _ _.
Arguments returned {A} _.
Arguments world_after {A} _.
Arguments effects {A} _.

Definition Hook (A : Type) : Type := World → Run A.

(** The run [r], coming after the effects [evs]. *)
Definition preceded {A} (evs : list Event) (r : Run A) : Run A :=
  mkRun (returned r) (world_after r) (evs ++ effects r).

Definition ret {A} (a : A) : Hook A := λ w, mkRun (Ok a) w [].

Definition bind {A B} (m : Hook A) (f : A → Hook B) : Hook B :=
  λ w, let r := m w in
       match returned r with
       | Ok a => preceded (effects r) (f a (world_after r))
       | Raised e => mkRun (Raised e) (world_after r) (effects r)
       end.

Declare Scope hook_scope.
Delimit Scope hook_scope with hook.
Bind Scope hook_scope with Hook.
Notation "x ← y ; z" := (bind y (λ x, z)) (only parsing) : hook_scope.
Notation "x ;; z" := (bind x (λ _, z)) (only parsing) : hook_scope.
Open Scope hook_scope.

(** [raise e] *)
Definition raise {A} (e : Exn) : Hook A := λ w, mkRun (Raised e) w [].

(** Run [m]; when it raises [e], go on with [h e]. *)
Definition handle {A} (m : Hook A) (h : Exn → Hook A) : Hook A :=
  λ w, let r := m w in
       match returned r with
       | Ok _ => r
       | Raised e => preceded (effects r) (h e (world_after r))
       end.

(** [try: m  except E: h], where [catches] selects the exceptions of [E] *)
Definition try_except {A} (m : Hook A) (catches : Exn → bool) (h : Hook A)
    : Hook A :=
  handle m (λ e, if catches e then h else raise e).

(** [for x in l: body(x)] *)
Fixpoint for_each {A} (l : list A) (body : A → Hook unit) : Hook unit :=
  match l with
  | [] => ret tt
  | x :: rest => body x ;; for_each rest body
  end.

(** An effect, performed. *)
Definition emit (e : Event) : Hook unit := λ w, mkRun (Ok tt) w [e].

(** ** The [json] codec on lists of strings

    [initialize_vault] stores [json.dumps(result['keys'])] and
    [unseal_vault] reads it back with [json.loads].  The codec is embedded
    for JSON arrays of strings, with the escapes of the double quote and
    the backslash; every other document is a decoding error.  This is
    Python's codec on the documents the module itself writes, lists of
    keys in printable ASCII (Vault hands its keys out in hexadecimal or
    base64); the escapes Python adds for control and non-ASCII characters,
    and the other JSON values its decoder accepts, are left out. *)

Definition bs : string := String (Ascii.ascii_of_nat 92) EmptyString.

Fixpoint json_escape (s : string) : string :=
  match s with
  | EmptyString => EmptyString
  | String c rest =>
      if bool_decide (c = Ascii.ascii_of_nat 34) || bool_decide (c = Ascii.ascii_of_nat 92)
      then String (Ascii.ascii_of_nat 92) (String c (json_escape rest))
      else String c (json_escape rest)
  end.

Definition json_dumps (l : list string) : string :=
  "[" +:+ join ", " ((λ s, quoted (json_escape s)) <$> l) +:+ "]".

(** Where the decoder stands in the document; [acc] holds the finished
    elements and [cur] the characters of the open string, both reversed. *)
Inductive JState :=
| JStart
| JFirst
| JString (acc : list string) (cur : list ascii)
| JEscape (acc : list string) (cur : list ascii)
| JAfter (acc : list string)
| JNext (acc : list string)
| JEnd (acc : list string).

Definition is_space (c : ascii) : bool :=
  bool_decide (c = Ascii.ascii_of_nat 32) || bool_decide (c = Ascii.ascii_of_nat 10)
  || bool_decide (c = Ascii.ascii_of_nat 9) || bool_decide (c = Ascii.ascii_of_nat 13).

Definition close_string (cur : list ascii) : string :=
  String.string_of_list_ascii (rev cur).

Fixpoint json_scan (st : JState) (doc : string) : option (list string) :=
  match doc with
  | EmptyString =>
      match st with
      | JEnd acc => Some (rev acc)
      | _ => None
      end
  | String c rest =>
      match st with
      | JStart =>
          if is_space c then json_scan JStart rest
          else if bool_decide (c = "["%char) then json_scan JFirst rest
          else None
      | JFirst =>
          if is_space c then json_scan JFirst rest
          else if bool_decide (c = "]"%char) then json_scan (JEnd []) rest
          else if bool_decide (c = Ascii.ascii_of_nat 34)
               then json_scan (JString [] []) rest
          else None
      | JString acc cur =>
          if bool_decide (c = Ascii.ascii_of_nat 34)
          then json_scan (JAfter (close_string cur :: acc)) rest
          else if bool_decide (c = Ascii.ascii_of_nat 92)
               then json_scan (JEscape acc cur) rest
          else json_scan (JString acc (c :: cur)) rest
      | JEscape acc cur =>
          if bool_decide (c = Ascii.ascii_of_nat 34) || bool_decide (c = Ascii.ascii_of_nat 92)
          then json_scan (JString acc (c :: cur)) rest
          else None
      | JAfter acc =>
          if is_space c then json_scan (JAfter acc) rest
          else if bool_decide (c = ","%char) then json_scan (JNext acc) rest
          else if bool_decide (c = "]"%char) then json_scan (JEnd acc) rest
          else None
      | JNext acc =>
          if is_space c then json_scan (JNext acc) rest
          else if bool_decide (c = Ascii.ascii_of_nat 34)
               then json_scan (JString acc []) rest
          else None
      | JEnd acc =>
          if is_space c then json_scan (JEnd acc) rest else None
      end
  end.

Definition json_loads (doc : string) : option (list string) :=
  json_scan JStart doc.

(** What follows the first element of an encoded list. *)
Fixpoint json_rest (l : list string) : string :=
  match l with
  | [] => "]"
  | s :: l => ", " +:+ quoted (json_escape s) +:+ json_rest l
  end.

(** ** Capabilities of the hook environment *)

(** [hookenv.log(msg, level=hookenv.DEBUG)] *)
Definition log (msg : string) : Hook unit := emit (Log msg).

(** [hookenv.is_leader()]: asked anew at every call. *)
Definition is_leader : Hook bool :=
  λ w, mkRun (Ok (leader_oracle w (leader_asked w))) (with_leader_asked w) [].

(** [hookenv.leader_get(attribute)]: [None] when the attribute is not set. *)
Definition leader_get (attribute : string) : Hook (option string) :=
  λ w, mkRun (Ok (leader_db w !! attribute)) w [].

(** [hookenv.leader_get()]: all leader settings. *)
Definition leader_get_all : Hook (gmap string string) :=
  λ w, mkRun (Ok (leader_db w)) w [].

(** [hookenv.leader_set(k1=v1, k2=v2, ...)].  The write is taken to be
    accepted: the hook tool's refusal of a unit that is not the leader is
    left out.  [prepare_vault] reaches the write only right after
    [is_leader] answered true. *)
Definition leader_set (settings : list (string * string)) : Hook unit :=
  λ w, mkRun (Ok tt)
         (with_leader_db
            (foldl (λ db kv, <[kv.1 := kv.2]> db) (leader_db w) settings) w)
         [LeaderSet settings].

(** [hookenv.config(key)], read for its truth value. *)
Definition config (key : string) : Hook bool :=
  λ w, mkRun (Ok (default false (charm_config w !! key))) w [].

(** [hookenv.network_get_primary_address(binding)] *)
Definition network_get_primary_address (binding : string) : Hook string :=
  λ w, match network_primary w binding with
       | Some a => mkRun (Ok a) w []
       | None => mkRun (Raised NotImplementedError) w []
       end.

(** [hookenv.unit_private_ip()] *)
Definition unit_private_ip : Hook string :=
  λ w, mkRun (Ok (private_ip w)) w [].

(** [charms.reactive.is_state(flag)] *)
Definition is_state (flag : string) : Hook bool :=
  λ w, mkRun (Ok (bool_decide (flag ∈ reactive_states w))) w [].

(** [host.service_running(name)] *)
Definition service_running (name : string) : Hook bool :=
  λ w, mkRun (Ok (vault_running w)) w [].

(** [host.service_start(name)]: a process that was down comes up sealed. *)
Definition service_start (name : string) : Hook unit :=
  λ w, mkRun (Ok tt)
         (with_process true
            (if vault_running w then server w else reboot (server w)) w)
         [ServiceStart name].

(** [host.service_restart(name)] *)
Definition service_restart (name : string) : Hook unit :=
  λ w, mkRun (Ok tt) (with_process true (reboot (server w)) w)
         [ServiceRestart name].

(** ** Requests to the server *)

(** One request: the transport may lose it ([ConnectionError]); otherwise
    the server handles it and either answers or refuses with an error. *)
Definition request {A} (token : option string) (call : ApiCall)
    (h : Handler A) : Hook A :=
  λ w, match wire w (sent w) with
       | Some msg =>
           mkRun (Raised (ConnectionError msg)) (after_request (server w) w)
             [Request token call (Lost msg)]
       | None =>
           match h (server w) with
           | (inl e, s) =>
               mkRun (Raised (VaultError e)) (after_request s w)
                 [Request token call (Refused e)]
           | (inr a, s) =>
               mkRun (Ok a) (after_request s w) [Request token call Answered]
           end
       end.

(** [requests.get(url).json()] on the health endpoint: a plain GET without
    a token; the server answers it in every state. *)
Definition requests_get_json (url : string) : Hook Health :=
  request None (HttpGet url) srv_health.

(** [hvac.Client(url=..., token=...)] *)
Record Client := mkClient { url : string; token : option string }.

Definition client_is_initialized (c : Client) : Hook bool :=
  request (token c) IsInitialized srv_is_initialized.

Definition client_is_sealed (c : Client) : Hook bool :=
  request (token c) IsSealed srv_is_sealed.

Definition client_initialize (c : Client) (shares thresh : Z)
    : Hook (string * list string) :=
  request (token c) (Initialize shares thresh) (srv_initialize shares thresh).

Definition client_unseal (c : Client) (key : string) : Hook unit :=
  request (token c) (Unseal key) (srv_unseal key).

Definition client_list_auth_backends (c : Client) : Hook (list string) :=
  request (token c) ListAuthBackends srv_list_auth_backends.

Definition client_enable_auth_backend (c : Client) (backend_type : string)
    : Hook unit :=
  request (token c) (EnableAuthBackend backend_type)
    (srv_enable_auth_backend backend_type).

Definition client_set_policy (c : Client) (name hcl : string) : Hook unit :=
  request (token c) (SetPolicy name hcl) (srv_set_policy name hcl).

Definition client_create_role (c : Client) (name : string) (spec : RoleSpec)
    : Hook unit :=
  request (token c) (CreateRole name spec) (srv_create_role name spec).

Definition client_get_role_id (c : Client) (name : string) : Hook string :=
  request (token c) (GetRoleId name) (srv_get_role_id name).

Definition client_list_secret_backends (c : Client) : Hook (list string) :=
  request (token c) ListSecretBackends srv_list_secret_backends.

(** [hvac]'s [enable_secret_backend] puts the mount point into the path
    of the request, [/v1/sys/mounts/<mount_point>]: a falsy mount point
    stands for the backend type ([if not mount_point: mount_point =
    backend_type]), and the path is sent without the slashes at its end. *)
Definition client_enable_secret_backend (c : Client)
    (backend_type description mount_point : string) : Hook unit :=
  let mount_point :=
    rstrip_slash (if String.eqb mount_point EmptyString then backend_type
                  else mount_point) in
  request (token c) (EnableSecretBackend backend_type description mount_point)
    (srv_enable_secret_backend backend_type description mount_point).

(** ** [tenacity.retry]

    [retry_from left reraise f] runs [f]; when it raises and [left] more
    attempts are allowed it runs [f] again, otherwise it re-raises the last
    exception ([reraise=True]) or raises [RetryError].  Every exception is
    retried (tenacity's default).  The waits between attempts
    ([wait_exponential]) take time and change nothing else. *)
Fixpoint retry_from {A} (left : nat) (reraise : bool) (f : Hook A) : Hook A :=
  handle f (λ e,
    match left with
    | O => if reraise then raise e else raise RetryError
    | S k => retry_from k reraise f
    end).

(** [@tenacity.retry(stop=stop_after_attempt(n), reraise=r)] *)
Definition tenacity_retry {A} (stop_after_attempt : nat) (reraise : bool)
    (f : Hook A) : Hook A :=
  retry_from (stop_after_attempt - 1) reraise f.

(** ** Python idioms *)

(** [a or b] on strings, with [b] evaluated only when [a] is falsy. *)
Definition or_else (a : option string) (b : Hook string) : Hook string :=
  match a with
  | Some s => if String.eqb s EmptyString then b else ret s
  | None => b
  end.

(** [d[key]] *)
Definition subscript (d : gmap string string) (key : string) : Hook string :=
  match d !! key with
  | Some v => ret v
  | None => raise (KeyError key)
  end.

(** [json.loads(doc)] *)
Definition loads (doc : string) : Hook (list string) :=
  match json_loads doc with
  | Some l => ret l
  | None => raise (JSONDecodeError doc)
  end.

(** ["{}".format(b)] for a boolean *)
Definition format_bool (b : bool) : string := if b then "True" else "False".

(** ** The functions of [lib/charm/vault.py] *)

Definition binding_address (binding : string) : Hook string :=
  try_except (network_get_primary_address binding)
    (λ e, match e with NotImplementedError => true | _ => false end)
    unit_private_ip.

Definition get_vault_url (binding : string) (port : Z)
    (address : option string) : Hook string :=
  let protocol := "http" in
  ip ← or_else address (binding_address binding);
  ssl ← is_state "vault.ssl.available";
  let protocol := if ssl then "https" else protocol in
  ret (protocol +:+ "://" +:+ ip +:+ ":" +:+ pretty port).

Definition get_api_url : option string → Hook string :=
  get_vault_url "access" 8200.

Definition get_cluster_url : option string → Hook string :=
  get_vault_url "cluster" 8201.

Definition enable_approle_auth (client : Client) : Hook unit :=
  backends ← client_list_auth_backends client;
  if negb (bool_decide ("approle/" ∈ backends))
  then client_enable_auth_backend client "approle"
  else ret tt.

Definition create_local_charm_access_role (client : Client)
    (policies : list string) : Hook string :=
  client_create_role client CHARM_ACCESS_ROLE
    (mkRoleSpec "60s" "60s" policies "false" "127.0.0.1/32") ;;
  client_get_role_id client CHARM_ACCESS_ROLE.

Definition setup_charm_vault_access (token : option string) : Hook string :=
  token ← (if negb (truthy token) then leader_get "token" else ret token);
  let client := mkClient VAULT_LOCALHOST_URL token in
  enable_approle_auth client ;;
  let policies := [CHARM_POLICY_NAME] in
  client_set_policy client CHARM_POLICY_NAME CHARM_POLICY ;;
  create_local_charm_access_role client policies.

Definition get_local_charm_access_role_id : Hook (option string) :=
  leader_get CHARM_ACCESS_ROLE_ID.

Definition get_client (url : option string) : Hook Client :=
  u ← or_else url (get_api_url None);
  ret (mkClient u None).

Definition get_vault_health : Hook Health :=
  tenacity_retry 10 true
    (requests_get_json (VAULT_HEALTH_URL VAULT_LOCALHOST_URL)).

Definition initialize_vault (shares thresh : Z) : Hook unit :=
  client ← get_client (Some VAULT_LOCALHOST_URL);
  result ← client_initialize client shares thresh;
  let client := mkClient (url client) (Some result.1) in
  leader_set [("root_token", result.1); ("keys", json_dumps result.2)].

Definition unseal_vault (keys : option (list string)) : Hook unit :=
  client ← get_client (Some VAULT_LOCALHOST_URL);
  keys ← match keys with
         | Some (k :: ks) => ret (k :: ks)
         | _ => db ← leader_get_all;
                doc ← subscript db "keys";
                loads doc
         end;
  for_each keys (λ key, client_unseal client key).

Definition can_restart : Hook bool :=
  let safe_restart := false in
  running ← service_running "vault";
  safe_restart ←
    (if negb running then ret true
     else
       unsafe ← config "totally-unsecure-auto-unlock";
       if unsafe then ret true
       else
         client ← get_client (Some VAULT_LOCALHOST_URL);
         is_init ← client_is_initialized client;
         if negb is_init then ret true
         else
           is_sealed ← client_is_sealed client;
           if is_sealed then ret true else ret safe_restart);
  log ("Safe to restart: " +:+ format_bool safe_restart) ;;
  ret safe_restart.

Definition opportunistic_restart : Hook unit :=
  ok ← can_restart;
  if ok
  then log "Restarting vault" ;; service_restart "vault"
  else log "Starting vault" ;; service_start "vault".

Definition prepare_vault : Hook unit :=
  running ← service_running "vault";
  if negb running
  then log "Defering unlock vault not running "
  else
    vault_health ← get_vault_health;
    (if negb (h_initialized vault_health)
     then leader ← is_leader;
          if leader then initialize_vault 1 1 else ret tt
     else ret tt) ;;
    (if h_sealed vault_health then unseal_vault None else ret tt) ;;
    leader ← is_leader;
    if leader then setup_charm_vault_access None ;; ret tt else ret tt.

Definition configure_secret_backend (client : Client) (name : string)
    : Hook unit :=
  backends ← client_list_secret_backends client;
  if negb (bool_decide (name +:+ "/" ∈ backends))
  then client_enable_secret_backend client "kv" "Charm created KV backend" name
  else ret tt.

Definition configure_policy (client : Client) (name hcl : string) : Hook unit :=
  client_set_policy client name hcl.

Definition configure_approle (client : Client) (name cidr : string)
    (policies : list string) : Hook string :=
  client_create_role client name
    (mkRoleSpec "60s" "60s" policies "false" cidr) ;;
  client_get_role_id client name.

(** ** Reading the effects of a run *)

Definition is_leader_write (e : Event) : bool :=
  match e with LeaderSet _ => true | _ => false end.

Definition is_initialize_call (e : Event) : bool :=
  match e with Request _ (Initialize _ _) _ => true | _ => false end.

Definition is_unseal_call (e : Event) : bool :=
  match e with Request _ (Unseal _) _ => true | _ => false end.

Definition is_health_probe (e : Event) : bool :=
  match e with Request _ (HttpGet _) _ => true | _ => false end.

(** The requests [setup_charm_vault_access] makes. *)
Definition is_provisioning (e : Event) : bool :=
  match e with
  | Request _ ListAuthBackends _
  | Request _ (EnableAuthBackend _) _
  | Request _ (SetPolicy _ _) _
  | Request _ (CreateRole _ _) _
  | Request _ (GetRoleId _) _ => true
  | _ => false
  end.

Definition is_supervision (e : Event) : bool :=
  match e with ServiceStart _ | ServiceRestart _ => true | _ => false end.

(** An [initialize] request the server answered with fresh secrets. *)
Definition is_initialized_ok (e : Event) : bool :=
  match e with Request _ (Initialize _ _) Answered => true | _ => false end.

(** The token a request was sent with. *)
Definition sent_with (tok : option string) (e : Event) : Prop :=
  ∃ call outcome, e = Request tok call outcome.

(** The token [setup_charm_vault_access] builds its client with. *)
Definition resolved_token (tok : option string) (w : World) : option string :=
  if truthy tok then tok else leader_db w !! "token".

(** A character of a plain name: a digit, a letter, [-] or [_]. *)
Definition plain_char (a : ascii) : bool :=
  let n := nat_of_ascii a in
  ((48 <=? n) && (n <=? 57) || (65 <=? n) && (n <=? 90) ||
   (97 <=? n) && (n <=? 122) || (n =? 45) || (n =? 95))%nat.

Fixpoint plain_chars (s : string) : bool :=
  match s with
  | EmptyString => true
  | String a rest => plain_char a && plain_chars rest
  end.

(** A backend name that the path of a request carries as it is written:
    not empty, and made of digits, letters, [-] and [_] only. *)
Definition plain_name (s : string) : bool :=
  negb (String.eqb s EmptyString) && plain_chars s.

(** An [enable_secret_backend] request. *)
Definition is_enable_secret_backend (e : Event) : bool :=
  match e with Request _ (EnableSecretBackend _ _ _) _ => true | _ => false end.

(** Every request from now on reaches the server. *)
Definition answers (w : World) : Prop := ∀ n, wire w n = None.

(** The charm's [totally-unsecure-auto-unlock] option. *)
Definition unsafe_flag (w : World) : bool :=
  default false (charm_config w !! "totally-unsecure-auto-unlock").

(** What a run leaves alone when all it does is talk to the server. *)
Definition env_kept (w w' : World) : Prop :=
  vault_running w' = vault_running w ∧
  charm_config w' = charm_config w ∧
  leader_oracle w' = leader_oracle w ∧
  leader_asked w' = leader_asked w ∧
  leader_db w' = leader_db w ∧
  wire w' = wire w.

(** The restart gate's decision table in the specification's words: the
    rules in order, first match wins. *)
Definition restart_table (running unsafe is_init is_sealed : bool) : bool :=
  if negb running then true
  else if unsafe then true
  else if negb is_init then true
  else if is_sealed then true
  else false.

(** The statements of [prepare_vault] on a running vault, one by one: the
    probe comes first, then these two, then the provisioning. *)
Definition initialize_step (vault_health : Health) : Hook unit :=
  if negb (h_initialized vault_health)
  then leader ← is_leader;
       if leader then initialize_vault 1 1 else ret tt
  else ret tt.

Definition unseal_step (vault_health : Health) : Hook unit :=
  if h_sealed vault_health then unseal_vault None else ret tt.

(** The body of [prepare_vault] on a running vault, up to its last
    statement: probe, initialise, unseal. *)
Definition prepare_vault_bootstrap : Hook Health :=
  vault_health ← get_vault_health;
  initialize_step vault_health ;;
  unseal_step vault_health ;;
  ret vault_health.

(** The last statement of [prepare_vault]. *)
Definition prepare_vault_provision : Hook unit :=
  leader ← is_leader;
  if leader then setup_charm_vault_access None ;; ret tt else ret tt.

(** The effects that touch neither the server's state nor the leader
    settings: log lines and health probes. *)
Definition is_quiet (e : Event) : bool :=
  match e with
  | Log _ | Request _ (HttpGet _) _ => true
  | _ => false
  end.

(** What the initialise step of a pass can contribute: nothing; or an
    [initialize] request that failed, which ends the pass; or an answered
    [initialize] request followed at once by the write of its secrets. *)
Definition initialize_part (s : Server) (part later : list Event) : Prop :=
  part = [] ∨
  (∃ outcome, outcome ≠ Answered ∧
     part = [Request None (Initialize 1 1) outcome] ∧ later = []) ∨
  part = [Request None (Initialize 1 1) Answered;
          LeaderSet [("root_token", fresh_root_token s);
                     ("keys", json_dumps (fresh_keys s))]].

(** ** Worlds used as concrete inputs *)

Definition fresh_server : Server :=
  mkServer false true "s.root" ["k1"] [] 0 [] ["token/"] ∅ ∅
    (λ name, "id-" +:+ name) ["secret/"; "sys/"].

(** An initialised server that needs two of its key shares. *)
Definition sealed_server : Server :=
  mkServer true true "s.root" ["k1"; "k2"] ["k1"; "k2"] 2 [] ["token/"] ∅ ∅
    (λ name, "id-" +:+ name) ["secret/"; "sys/"].

Definition ready_server : Server :=
  mkServer true false "s.root" ["k1"] ["k1"] 1 [] ["token/"] ∅ ∅
    (λ name, "id-" +:+ name) ["secret/"; "sys/"].

Definition world_of (leader : bool) (db : gmap string string)
    (wire : nat → option string) (s : Server) : World :=
  mkWorld true ∅ [] (λ _, None) "10.0.0.1" (λ _, leader) 0 db wire 0 s.

Definition online : nat → option string := λ _, None.
Definition offline_msg (n : nat) : string := "refused #" +:+ pretty n.
Definition offline : nat → option string := λ n, Some (offline_msg n).

(** ** Vocabulary of the further properties *)

(** The exception a failed request raises in the client. *)
Definition failure_of (e : Event) : option Exn :=
  match e with
  | Request _ _ (Lost msg) => Some (ConnectionError msg)
  | Request _ _ (Refused err) => Some (VaultError err)
  | _ => None
  end.

Definition is_request (e : Event) : bool :=
  match e with Request _ _ _ => true | _ => false end.

(** A run that stops at the first request that fails: when it returns,
    none of its requests failed; when it raises, the exception is that of
    its last request and none before it failed. *)
Definition fail_fast {A} (r : Run A) : Prop :=
  match returned r with
  | Ok _ => Forall (λ e, failure_of e = None) (effects r)
  | Raised exn =>
      ∃ pre last, effects r = (pre ++ [last])%list ∧
        Forall (λ e, failure_of e = None) pre ∧ failure_of last = Some exn
  end.

(** An initialised, unsealed server: the one the administrative endpoints
    answer on. *)
Definition operational (s : Server) : Prop :=
  initialized s = true ∧ sealed s = false.

(** The role [create_local_charm_access_role] asks for. *)
Definition charm_access_role_spec : RoleSpec :=
  mkRoleSpec "60s" "60s" [CHARM_POLICY_NAME] "false" "127.0.0.1/32".

(** The server once [setup_charm_vault_access] has gone through. *)
Definition provisioned (s : Server) : Server :=
  mkServer (initialized s) (sealed s) (fresh_root_token s) (fresh_keys s)
    (key_shares s) (threshold s) (progress s)
    (if bool_decide ("approle/" ∈ auth_backends s) then auth_backends s
     else "approle/" :: auth_backends s)
    (<[CHARM_POLICY_NAME := CHARM_POLICY]> (policy_store s))
    (<[CHARM_ACCESS_ROLE := charm_access_role_spec]> (role_store s))
    (role_id_of s) (secret_backends s).

(** The scheme and the host [get_vault_url] puts in a URL. *)
Definition url_scheme (w : World) : string :=
  if bool_decide ("vault.ssl.available" ∈ reactive_states w)
  then "https" else "http".

Definition url_host (binding : string) (address : option string) (w : World)
    : string :=
  match address with
  | Some a =>
      if String.eqb a EmptyString
      then default (private_ip w) (network_primary w binding) else a
  | None => default (private_ip w) (network_primary w binding)
  end.

(** The health request of the probe and how it can end. *)
Definition health_request (outcome : Outcome) : Event :=
  Request None (HttpGet (VAULT_HEALTH_URL VAULT_LOCALHOST_URL)) outcome.

(** A transport that loses the first [k] requests and delivers the rest. *)
Definition flaky (k : nat) : nat → option string :=
  λ n, if (n <? k)%nat then Some (offline_msg n) else None.

(** The server with one more role, policy or mount, as the upserts of the
    administrative API leave it. *)
Definition with_role (name : string) (spec : RoleSpec) (s : Server) : Server :=
  mkServer (initialized s) (sealed s) (fresh_root_token s) (fresh_keys s)
    (key_shares s) (threshold s) (progress s) (auth_backends s)
    (policy_store s) (<[name := spec]> (role_store s)) (role_id_of s)
    (secret_backends s).

Definition with_policy (name hcl : string) (s : Server) : Server :=
  mkServer (initialized s) (sealed s) (fresh_root_token s) (fresh_keys s)
    (key_shares s) (threshold s) (progress s) (auth_backends s)
    (<[name := hcl]> (policy_store s)) (role_store s) (role_id_of s)
    (secret_backends s).

(** The leader settings other than [root_token] and [keys] are the same
    in [w'] as in [w]. *)
Definition other_settings_kept (w w' : World) : Prop :=
  ∀ k, k ≠ "root_token" → k ≠ "keys" → leader_db w' !! k = leader_db w !! k.

(** The key an unseal request submits. *)
Definition unseal_key_of (e : Event) : option string :=
  match e with Request _ (Unseal k) _ => Some k | _ => None end.

(** * Properties *)

(** ** The monad *)

Lemma bind_ok {A B} (m : Hook A) (f : A → Hook B) w a :
  returned (m w) = Ok a →
  bind m f w = preceded (effects (m w)) (f a (world_after (m w))).
Proof. intros H. unfold bind. by rewrite H. Qed.

Lemma bind_raised {A B} (m : Hook A) (f : A → Hook B) w e :
  returned (m w) = Raised e →
  bind m f w = mkRun (Raised e) (world_after (m w)) (effects (m w)).
Proof. intros H. unfold bind. by rewrite H. Qed.

Lemma handle_ok {A} (m : Hook A) h w a :
  returned (m w) = Ok a → handle m h w = m w.
Proof. intros H. unfold handle. by rewrite H. Qed.

Lemma handle_raised {A} (m : Hook A) h w e :
  returned (m w) = Raised e →
  handle m h w = preceded (effects (m w)) (h e (world_after (m w))).
Proof. intros H. unfold handle. by rewrite H. Qed.

Lemma env_kept_refl w : env_kept w w.
Proof. by repeat split. Qed.

Lemma env_kept_trans w1 w2 w3 :
  env_kept w1 w2 → env_kept w2 w3 → env_kept w1 w3.
Proof.
  unfold env_kept. intros (?&?&?&?&?&?) (?&?&?&?&?&?).
  repeat split; congruence.
Qed.

Lemma env_kept_after_request s w : env_kept w (after_request s w).
Proof. by repeat split. Qed.

(** ** Requests *)

Section Requests.
Context {A : Type} (tok : option string) (call : ApiCall) (h : Handler A).

Lemma request_lost w msg :
  wire w (sent w) = Some msg →
  request tok call h w =
    mkRun (Raised (ConnectionError msg)) (after_request (server w) w)
      [Request tok call (Lost msg)].
Proof. intros H. unfold request. by rewrite H. Qed.

Lemma request_reached w :
  wire w (sent w) = None →
  request tok call h w =
    match h (server w) with
    | (inl e, s) => mkRun (Raised (VaultError e)) (after_request s w)
                      [Request tok call (Refused e)]
    | (inr a, s) => mkRun (Ok a) (after_request s w)
                      [Request tok call Answered]
    end.
Proof. intros H. unfold request. by rewrite H. Qed.

Lemma request_env_kept w : env_kept w (world_after (request tok call h w)).
Proof.
  unfold request. destruct (wire w (sent w)); [apply env_kept_after_request|].
  destruct (h (server w)) as [[e|a] s]; apply env_kept_after_request.
Qed.

Lemma request_sent w : sent (world_after (request tok call h w)) = S (sent w).
Proof.
  unfold request. destruct (wire w (sent w)); [done|].
  by destruct (h (server w)) as [[e|a] s].
Qed.

(** A request performs exactly one effect: itself, with the client's token. *)
Lemma request_effects w :
  ∃ outcome, effects (request tok call h w) = [Request tok call outcome].
Proof.
  unfold request. destruct (wire w (sent w)); [by eexists|].
  destruct (h (server w)) as [[e|a] s]; by eexists.
Qed.

(** A request that is lost leaves the server as it was. *)
Lemma request_lost_server w msg :
  wire w (sent w) = Some msg →
  server (world_after (request tok call h w)) = server w.
Proof. intros H. by rewrite (request_lost _ _ H). Qed.
End Requests.

(** ** The retry loop *)

Section Retry.
Context {A : Type} (tok : option string) (call : ApiCall) (h : Handler A).

(** Against a transport that loses every request, [retry_from left] makes
    [S left] attempts and re-raises the error of the last one. *)
Lemma retry_from_all_lost (err : nat → string) left : ∀ w,
  (∀ n, wire w n = Some (err n)) →
  returned (retry_from left true (request tok call h) w)
    = Raised (ConnectionError (err (sent w + left)%nat)) ∧
  effects (retry_from left true (request tok call h) w)
    = (λ i, Request tok call (Lost (err (sent w + i)%nat))) <$> seq 0 (S left).
Proof.
  induction left as [|k IH]; intros w Hw.
  - simpl. rewrite (handle_raised _ _ _ (ConnectionError (err (sent w)))).
    2: { by rewrite (request_lost _ _ _ _ _ (Hw (sent w))). }
    rewrite (request_lost _ _ _ _ _ (Hw (sent w))). simpl.
    by rewrite !Nat.add_0_r.
  - simpl retry_from.
    rewrite (handle_raised _ _ _ (ConnectionError (err (sent w)))).
    2: { by rewrite (request_lost _ _ _ _ _ (Hw (sent w))). }
    rewrite (request_lost _ _ _ _ _ (Hw (sent w))). cbn [world_after effects].
    destruct (IH (after_request (server w) w)) as [IHr IHe]; [exact Hw|].
    unfold preceded. cbn [returned effects]. rewrite IHr, IHe.
    change (sent (after_request (server w) w)) with (S (sent w)). split.
    + do 3 f_equal. lia.
    + change (seq 0 (S (S k))) with (0%nat :: seq 1 (S k)).
      rewrite <- (fmap_S_seq 0 (S k)), fmap_cons, <- list_fmap_compose.
      rewrite Nat.add_0_r. cbn [app]. f_equal.
      apply list_fmap_ext. intros i x _. simpl. do 3 f_equal. lia.
Qed.

Lemma retry_from_env_kept left reraise : ∀ w,
  env_kept w (world_after (retry_from left reraise (request tok call h) w)).
Proof.
  induction left as [|k IH]; intros w; simpl; unfold handle;
    pose proof (request_env_kept tok call h w) as Hk;
    destruct (returned (request tok call h w)) as [a|e]; try exact Hk.
  - destruct reraise; exact Hk.
  - cbn [preceded world_after]. eapply env_kept_trans; [exact Hk|apply IH].
Qed.

(** A handler that only reads leaves the server as it was, however often
    it is asked. *)
Lemma retry_from_server left reraise : ∀ w,
  (∀ s, (h s).2 = s) →
  server (world_after (retry_from left reraise (request tok call h) w))
    = server w.
Proof.
  intros w Hh. revert w.
  assert (Hreq : ∀ w, server (world_after (request tok call h w)) = server w).
  { intros w. unfold request. destruct (wire w (sent w)); [reflexivity|].
    specialize (Hh (server w)). by destruct (h (server w)) as [[e|a] s]. }
  induction left as [|k IH]; intros w; simpl; unfold handle;
    destruct (returned (request tok call h w)) as [a|e]; try apply Hreq.
  - destruct reraise; apply Hreq.
  - cbn [preceded world_after]. by rewrite IH.
Qed.

(** Whatever the transport does, the loop only ever sends [call]. *)
Lemma retry_from_effects left reraise : ∀ w,
  Forall (λ e, ∃ outcome, e = Request tok call outcome)
    (effects (retry_from left reraise (request tok call h) w)).
Proof.
  induction left as [|k IH]; intros w; simpl; unfold handle;
    destruct (request_effects tok call h w) as [o Ho];
    destruct (returned (request tok call h w)) as [a|e].
  - rewrite Ho. repeat constructor. by eexists.
  - cbn [preceded effects]. rewrite Ho.
    destruct reraise; simpl; repeat constructor; by eexists.
  - rewrite Ho. repeat constructor. by eexists.
  - cbn [preceded effects]. rewrite Ho. simpl. constructor; [by eexists|].
    apply IH.
Qed.
End Retry.

(** ** Effects of composed computations *)

Section Effects.
Context (P : Event → Prop).

Lemma bind_effects_Forall {A B} (m : Hook A) (f : A → Hook B) w :
  Forall P (effects (m w)) →
  (∀ a, returned (m w) = Ok a → Forall P (effects (f a (world_after (m w))))) →
  Forall P (effects (bind m f w)).
Proof.
  intros Hm Hf. unfold bind. destruct (returned (m w)) as [a|e]; [|done].
  cbn [preceded effects]. apply Forall_app. split; [done|by apply Hf].
Qed.

Lemma for_each_effects_Forall {A} (body : A → Hook unit) l : ∀ w,
  (∀ x w', Forall P (effects (body x w'))) →
  Forall P (effects (for_each l body w)).
Proof.
  induction l as [|x l IH]; intros w Hb; [constructor|].
  simpl. apply bind_effects_Forall; [apply Hb|]. intros _ _. by apply IH.
Qed.
End Effects.

Lemma bind_effects_prefix {A B} (m : Hook A) (f : A → Hook B) w :
  ∃ rest, effects (bind m f w) = (effects (m w) ++ rest)%list.
Proof.
  unfold bind. destruct (returned (m w)) as [a|e].
  - by eexists.
  - exists []. by rewrite app_nil_r.
Qed.

Lemma get_client_localhost w :
  get_client (Some VAULT_LOCALHOST_URL) w
    = mkRun (Ok (mkClient VAULT_LOCALHOST_URL None)) w [].
Proof. reflexivity. Qed.

(** ** The health probe *)

Lemma get_vault_health_effects w :
  Forall (λ e, is_health_probe e = true) (effects (get_vault_health w)).
Proof.
  eapply Forall_impl; [apply retry_from_effects|].
  intros e [o ->]. reflexivity.
Qed.

Lemma get_vault_health_env_kept w :
  env_kept w (world_after (get_vault_health w)).
Proof. apply retry_from_env_kept. Qed.

Lemma get_vault_health_server w :
  server (world_after (get_vault_health w)) = server w.
Proof. by apply retry_from_server. Qed.

(** C7.  Against a server that fails at the transport level on every
    request, [get_vault_health] sends the health request exactly ten times
    and then raises the [ConnectionError] of the tenth attempt, the last
    one, to its caller. *)
Theorem get_vault_health_retry_bound (w : World) (err : nat → string) :
  (∀ n, wire w n = Some (err n)) →
  returned (get_vault_health w)
    = Raised (ConnectionError (err (sent w + 9)%nat)) ∧
  effects (get_vault_health w)
    = (λ i, Request None (HttpGet (VAULT_HEALTH_URL VAULT_LOCALHOST_URL))
              (Lost (err (sent w + i)%nat))) <$> seq 0 10.
Proof.
  intros Hw. unfold get_vault_health, tenacity_retry, requests_get_json.
  exact (retry_from_all_lost None _ srv_health err 9 w Hw).
Qed.

Lemma get_vault_health_retry_bound_witness :
  let w := world_of false ∅ offline fresh_server in
  (∀ n, wire w n = Some (offline_msg n)) ∧
  returned (get_vault_health w) = Raised (ConnectionError (offline_msg 9)) ∧
  length (effects (get_vault_health w)) = 10%nat.
Proof.
  intros w.
  pose proof (get_vault_health_retry_bound w offline_msg (λ n, eq_refl)) as [Hr He].
  split; [intros n; reflexivity|]. split; [exact Hr|].
  rewrite He. reflexivity.
Defined.

(** ** The restart gate *)



(** The table itself, row by row. *)
Example restart_table_rows :
  (∀ u i s, restart_table false u i s = true) ∧
  (∀ i s, restart_table true true i s = true) ∧
  (∀ s, restart_table true false false s = true) ∧
  restart_table true false true true = true ∧
  restart_table true false true false = false.
Proof. repeat split; intros; reflexivity. Qed.

(** [can_restart] starts and stops nothing. *)
Lemma can_restart_no_supervision w :
  List.filter is_supervision (effects (can_restart w)) = [].
Proof.
  unfold can_restart.
  unfold bind at 1. cbn [service_running returned world_after effects].
  destruct (vault_running w); [|reflexivity]. cbn [negb].
  unfold bind, config, client_is_initialized, client_is_sealed, request, log, emit.
  cbn [returned world_after effects preceded].
  destruct (default false (charm_config w !! "totally-unsecure-auto-unlock"));
    [reflexivity|].
  rewrite get_client_localhost. cbn [returned world_after effects preceded token].
  destruct (wire w (sent w)); [reflexivity|]. unfold srv_is_initialized.
  cbn [returned world_after effects preceded].
  destruct (initialized (server w)) eqn:Hi; [|reflexivity]. cbn [negb].
  cbn [sent after_request wire server].
  destruct (wire w (S (sent w))); [reflexivity|].
  unfold srv_is_sealed. rewrite Hi. cbn [returned world_after effects preceded].
  destruct (sealed (server w)); reflexivity.
Qed.

(** C10 as stated fails: with the process running, the unsafe flag unset
    and the server's API not answering, [can_restart] raises, and
    [opportunistic_restart] leaves by the same exception with neither a
    start nor a restart. *)
Lemma opportunistic_restart_no_action_cex :
  let w := world_of true ∅ offline ready_server in
  returned (can_restart w) = Raised (ConnectionError (offline_msg 0)) ∧
  returned (opportunistic_restart w) = Raised (ConnectionError (offline_msg 0)) ∧
  effects (opportunistic_restart w)
    = [Request None IsInitialized (Lost (offline_msg 0))] ∧
  List.filter is_supervision (effects (opportunistic_restart w)) = [].
Proof. vm_compute. by repeat split. Qed.

(** C10, amended.  When [can_restart] returns, [opportunistic_restart]
    performs exactly one supervision action: [service_restart('vault')] if
    it returned true, [service_start('vault')] if it returned false.  When
    [can_restart] raises, the exception propagates and no action is
    performed. *)
Theorem opportunistic_restart_action (w : World) :
  match returned (can_restart w) with
  | Ok b =>
      returned (opportunistic_restart w) = Ok tt ∧
      List.filter is_supervision (effects (opportunistic_restart w))
        = [if b then ServiceRestart "vault" else ServiceStart "vault"]
  | Raised e =>
      returned (opportunistic_restart w) = Raised e ∧
      List.filter is_supervision (effects (opportunistic_restart w)) = []
  end.
Proof.
  pose proof (can_restart_no_supervision w) as Hq.
  unfold opportunistic_restart.
  destruct (returned (can_restart w)) as [b|e] eqn:Hr.
  - rewrite (bind_ok _ _ _ _ Hr).
    destruct b;
      unfold bind, log, emit, service_restart, service_start;
      cbn [preceded returned world_after effects];
      rewrite List.filter_app, Hq; split; reflexivity.
  - rewrite (bind_raised _ _ _ _ Hr). cbn [returned effects]. by split.
Qed.

(** ** Access provisioning *)

Lemma enable_approle_auth_effects c w :
  Forall (sent_with (token c)) (effects (enable_approle_auth c w)).
Proof.
  unfold enable_approle_auth. apply bind_effects_Forall.
  - destruct (request_effects (token c) ListAuthBackends
                srv_list_auth_backends w) as [o Ho].
    unfold client_list_auth_backends. rewrite Ho.
    repeat constructor. by do 2 eexists.
  - intros backends _. destruct (negb _); [|constructor].
    match goal with |- Forall _ (effects (_ _ _ ?w')) =>
      destruct (request_effects (token c) (EnableAuthBackend "approle")
                  (srv_enable_auth_backend "approle") w') as [o Ho] end.
    unfold client_enable_auth_backend. rewrite Ho.
    repeat constructor. by do 2 eexists.
Qed.

Lemma request_sent_with {A} tok call (h : Handler A) w :
  Forall (sent_with tok) (effects (request tok call h w)).
Proof.
  destruct (request_effects tok call h w) as [o ->].
  repeat constructor. by do 2 eexists.
Qed.

Lemma setup_with_client_effects tok w :
  Forall (sent_with tok)
    (effects
       ((enable_approle_auth (mkClient VAULT_LOCALHOST_URL tok) ;;
         client_set_policy (mkClient VAULT_LOCALHOST_URL tok)
           CHARM_POLICY_NAME CHARM_POLICY ;;
         create_local_charm_access_role (mkClient VAULT_LOCALHOST_URL tok)
           [CHARM_POLICY_NAME]) w)).
Proof.
  apply bind_effects_Forall;
    [apply (enable_approle_auth_effects (mkClient VAULT_LOCALHOST_URL tok))|].
  intros _ _. apply bind_effects_Forall; [apply request_sent_with|].
  intros _ _. unfold create_local_charm_access_role.
  apply bind_effects_Forall; [apply request_sent_with|].
  intros _ _. apply request_sent_with.
Qed.

Lemma setup_with_client_first tok w :
  ∃ outcome rest,
    effects
      ((enable_approle_auth (mkClient VAULT_LOCALHOST_URL tok) ;;
        client_set_policy (mkClient VAULT_LOCALHOST_URL tok)
          CHARM_POLICY_NAME CHARM_POLICY ;;
        create_local_charm_access_role (mkClient VAULT_LOCALHOST_URL tok)
          [CHARM_POLICY_NAME]) w)
    = Request tok ListAuthBackends outcome :: rest.
Proof.
  match goal with |- ∃ _ _, effects (bind ?m ?f w) = _ =>
    destruct (bind_effects_prefix m f w) as [r1 ->] end.
  unfold enable_approle_auth.
  match goal with |- ∃ _ _, (effects (bind ?m ?f w) ++ _)%list = _ =>
    destruct (bind_effects_prefix m f w) as [r2 ->] end.
  destruct (request_effects tok ListAuthBackends srv_list_auth_backends w)
    as [o Ho].
  unfold client_list_auth_backends. cbn [token]. rewrite Ho.
  by exists o, (r2 ++ r1)%list.
Qed.

(** Every request of [setup_charm_vault_access] carries the token the
    function resolved, and the first request is always sent. *)
Lemma setup_charm_vault_access_requests tok w :
  Forall (sent_with (resolved_token tok w))
    (effects (setup_charm_vault_access tok w)) ∧
  ∃ outcome rest,
    effects (setup_charm_vault_access tok w)
      = Request (resolved_token tok w) ListAuthBackends outcome :: rest.
Proof.
  unfold setup_charm_vault_access, resolved_token.
  destruct (truthy tok) eqn:Ht; cbn [negb].
  - unfold bind at 1. cbn [ret returned world_after effects].
    unfold bind at 3. cbn [ret returned world_after effects].
    unfold preceded. cbn [effects app].
    split; [apply setup_with_client_effects|apply setup_with_client_first].
  - unfold bind at 1. cbn [leader_get returned world_after effects].
    unfold bind at 3. cbn [leader_get returned world_after effects].
    unfold preceded. cbn [effects app].
    split; [apply setup_with_client_effects|apply setup_with_client_first].
Qed.

(** C9.  [setup_charm_vault_access] treats a falsy token argument as
    absent: called with the empty string it behaves exactly as called with
    [None], and in both cases every request it sends carries the leader
    setting [token], whatever that is.  Only a non-empty argument is used
    as it is: every request then carries that very string, whatever the
    leader settings hold.  The first request, which shows the token, is
    always sent. *)
Theorem setup_charm_vault_access_falsy_token
    (a : ascii) (s : string) (tok : option string) (w : World) :
  setup_charm_vault_access (Some EmptyString) w = setup_charm_vault_access None w ∧
  (Forall (sent_with (leader_db w !! "token"))
     (effects (setup_charm_vault_access (Some EmptyString) w)) ∧
   ∃ outcome rest,
     effects (setup_charm_vault_access (Some EmptyString) w)
       = Request (leader_db w !! "token") ListAuthBackends outcome :: rest) ∧
  (Forall (sent_with (leader_db w !! "token"))
     (effects (setup_charm_vault_access None w)) ∧
   ∃ outcome rest,
     effects (setup_charm_vault_access None w)
       = Request (leader_db w !! "token") ListAuthBackends outcome :: rest) ∧
  (Forall (sent_with (Some (String a s)))
     (effects (setup_charm_vault_access (Some (String a s)) w)) ∧
   ∃ outcome rest,
     effects (setup_charm_vault_access (Some (String a s)) w)
       = Request (Some (String a s)) ListAuthBackends outcome :: rest) ∧
  resolved_token (Some EmptyString) w = leader_db w !! "token" ∧
  resolved_token None w = leader_db w !! "token" ∧
  resolved_token tok w = (if truthy tok then tok else leader_db w !! "token") ∧
  Forall (sent_with (resolved_token tok w))
    (effects (setup_charm_vault_access tok w)) ∧
  ∃ outcome rest,
    effects (setup_charm_vault_access tok w)
      = Request (resolved_token tok w) ListAuthBackends outcome :: rest.
Proof.
  split; [reflexivity|].
  split; [exact (setup_charm_vault_access_requests (Some EmptyString) w)|].
  split; [exact (setup_charm_vault_access_requests None w)|].
  split; [exact (setup_charm_vault_access_requests (Some (String a s)) w)|].
  split; [reflexivity|]. split; [reflexivity|].
  split; [reflexivity|]. apply setup_charm_vault_access_requests.
Qed.

(** [initialize_vault], step by step: the request is lost, or refused by
    a server that is initialised already, or answered, and then the secrets
    go to the leader settings under [root_token] and [keys]. *)
Lemma initialize_vault_run shares thresh w :
  initialize_vault shares thresh w =
    match wire w (sent w) with
    | Some msg =>
        mkRun (Raised (ConnectionError msg)) (after_request (server w) w)
          [Request None (Initialize shares thresh) (Lost msg)]
    | None =>
        if initialized (server w)
        then mkRun (Raised (VaultError AlreadyInitialized))
               (after_request (server w) w)
               [Request None (Initialize shares thresh)
                  (Refused AlreadyInitialized)]
        else mkRun (Ok tt)
               (with_leader_db
                  (<["keys" := json_dumps (fresh_keys (server w))]>
                     (<["root_token" := fresh_root_token (server w)]>
                        (leader_db w)))
                  (after_request
                     (mkServer true true (fresh_root_token (server w))
                        (fresh_keys (server w)) (fresh_keys (server w)) thresh
                        [] (auth_backends (server w)) (policy_store (server w))
                        (role_store (server w)) (role_id_of (server w))
                        (secret_backends (server w))) w))
               [Request None (Initialize shares thresh) Answered;
                LeaderSet [("root_token", fresh_root_token (server w));
                           ("keys", json_dumps (fresh_keys (server w)))]]
    end.
Proof.
  unfold initialize_vault, bind. rewrite get_client_localhost.
  cbn [returned world_after effects]. unfold client_initialize, request.
  cbn [token]. destruct (wire w (sent w)); [reflexivity|].
  unfold srv_initialize. destruct (initialized (server w)); reflexivity.
Qed.

(** C1, on a fresh server with the unit as leader.  [initialize_vault]
    returns and publishes the server's root token under the leader setting
    [root_token]; [setup_charm_vault_access], called next without a token,
    reads the leader setting [token], which nothing has set, and sends its
    requests with no token at all, not with the stored root token. *)
Theorem setup_after_initialize_token :
  let w := world_of true ∅ online fresh_server in
  let w1 := world_after (initialize_vault 1 1 w) in
  returned (initialize_vault 1 1 w) = Ok tt ∧
  leader_db w1 !! "root_token" = Some "s.root" ∧
  leader_db w1 !! "token" = None ∧
  resolved_token None w1 = None ∧
  (∃ outcome rest,
     effects (setup_charm_vault_access None w1)
       = Request None ListAuthBackends outcome :: rest) ∧
  ¬ Exists (sent_with (Some "s.root")) (effects (setup_charm_vault_access None w1)).
Proof.
  intros w w1.
  assert (Hdb : leader_db w1 !! "token" = None) by (vm_compute; reflexivity).
  split; [reflexivity|]. split; [vm_compute; reflexivity|].
  split; [exact Hdb|]. split; [exact Hdb|]. split.
  - destruct (setup_charm_vault_access_requests None w1)
      as (_ & o & rest & He).
    exists o, rest. rewrite He. unfold resolved_token. cbn [truthy].
    by rewrite Hdb.
  - destruct (setup_charm_vault_access_requests None w1) as (Hall & _).
    unfold resolved_token in Hall. cbn [truthy] in Hall. rewrite Hdb in Hall.
    rewrite Exists_exists. intros (e & Hin & call & o & ->).
    rewrite Forall_forall in Hall. destruct (Hall _ Hin) as (call' & o' & Heq).
    discriminate Heq.
Qed.

(** ** Secret backends *)

Lemma plain_char_not_slash a :
  plain_char a = true → Ascii.eqb a "/" = false.
Proof.
  destruct a as [[] [] [] [] [] [] [] []]; vm_compute; congruence.
Qed.

Lemma rstrip_slash_plain s : plain_chars s = true → rstrip_slash s = s.
Proof.
  induction s as [|a rest IH]; [done|].
  cbn [plain_chars rstrip_slash]. intros [Ha Hrest]%andb_prop.
  rewrite (IH Hrest). destruct rest; [|done].
  by rewrite (plain_char_not_slash a Ha).
Qed.

(** The mount point [hvac] sends for a plain name is the name itself. *)
Lemma plain_name_mount_point backend_type name :
  plain_name name = true →
  rstrip_slash (if String.eqb name EmptyString then backend_type else name)
    = name.
Proof.
  unfold plain_name. intros [Hne Hchars]%andb_prop.
  apply negb_true_iff in Hne. rewrite Hne. by apply rstrip_slash_plain.
Qed.

(** C8 as stated fails: it does not hold for every name.  The mount of
    [charm-foo/] is listed as [charm-foo/], so the second call looks for
    [charm-foo//] in vain and sends a second [enable_secret_backend]
    request, which the server refuses; the same happens for the empty
    name, which the client mounts at the backend type, [kv/], while the
    guard looks for [/]. *)
Lemma configure_secret_backend_twice_cex :
  let w := world_of true ∅ online ready_server in
  let c := mkClient VAULT_LOCALHOST_URL (Some "s.root") in
  let r1 := configure_secret_backend c "charm-foo/" w in
  let r2 := configure_secret_backend c "charm-foo/" (world_after r1) in
  let e1 := configure_secret_backend c EmptyString w in
  let e2 := configure_secret_backend c EmptyString (world_after e1) in
  returned r1 = Ok tt ∧
  secret_backends (server (world_after r1)) = ["charm-foo/"; "secret/"; "sys/"] ∧
  returned r2 = Raised (VaultError (PathInUse "charm-foo/")) ∧
  length (List.filter is_enable_secret_backend (effects r1 ++ effects r2))
    = 2%nat ∧
  secret_backends (server (world_after e1)) = ["kv/"; "secret/"; "sys/"] ∧
  returned e2 = Raised (VaultError (PathInUse "kv/")) ∧
  length (List.filter is_enable_secret_backend (effects e1 ++ effects e2))
    = 2%nat.
Proof. vm_compute. by repeat split. Qed.

(** C8, amended.  For a plain backend name (not empty, made of digits,
    letters, [-] and [_]), on a server that answers and where [name/] is
    not mounted yet, two calls of [configure_secret_backend client name]
    in succession make exactly one [enable_secret_backend] call: the first
    call lists the mounts and enables the backend at [name], the second
    lists them, finds [name/] and changes nothing. *)
Theorem configure_secret_backend_twice (c : Client) (name : string) (w : World) :
  plain_name name = true →
  answers w →
  initialized (server w) = true →
  sealed (server w) = false →
  name +:+ "/" ∉ secret_backends (server w) →
  let r1 := configure_secret_backend c name w in
  let r2 := configure_secret_backend c name (world_after r1) in
  returned r1 = Ok tt ∧ returned r2 = Ok tt ∧
  effects r1
    = [Request (token c) ListSecretBackends Answered;
       Request (token c)
         (EnableSecretBackend "kv" "Charm created KV backend" name) Answered] ∧
  effects r2 = [Request (token c) ListSecretBackends Answered] ∧
  length (List.filter is_enable_secret_backend (effects r1 ++ effects r2))
    = 1%nat ∧
  name +:+ "/" ∈ secret_backends (server (world_after r1)) ∧
  server (world_after r2) = server (world_after r1).
Proof.
  intros Hplain Hw Hi Hs Hfresh r1 r2.
  pose proof (plain_name_mount_point "kv" name Hplain) as Hmp.
  assert (H1 : r1 = mkRun (Ok tt)
      (after_request
         (mkServer (initialized (server w)) (sealed (server w))
            (fresh_root_token (server w)) (fresh_keys (server w))
            (key_shares (server w)) (threshold (server w))
            (progress (server w)) (auth_backends (server w))
            (policy_store (server w)) (role_store (server w))
            (role_id_of (server w))
            ((name +:+ "/") :: secret_backends (server w)))
         (after_request (server w) w))
      [Request (token c) ListSecretBackends Answered;
       Request (token c)
         (EnableSecretBackend "kv" "Charm created KV backend" name) Answered]).
  { subst r1. unfold configure_secret_backend, bind,
      client_list_secret_backends, client_enable_secret_backend.
    cbn zeta. rewrite Hmp. unfold request.
    rewrite (Hw (sent w)).
    unfold srv_list_secret_backends, srv_enable_secret_backend, guarded.
    rewrite Hi, Hs. cbn [negb returned world_after effects preceded].
    rewrite (bool_decide_eq_false_2 _ Hfresh). cbn [negb].
    cbn [after_request wire sent server]. rewrite (Hw (S (sent w))).
    rewrite Hi, Hs. cbn [negb].
    rewrite (bool_decide_eq_false_2 _ Hfresh). reflexivity. }
  assert (Hin : name +:+ "/" ∈ secret_backends (server (world_after r1))).
  { rewrite H1. cbn. apply elem_of_cons. by left. }
  assert (H2 : r2 = mkRun (Ok tt)
      (after_request (server (world_after r1)) (world_after r1))
      [Request (token c) ListSecretBackends Answered]).
  { subst r2. unfold configure_secret_backend, bind,
      client_list_secret_backends, request.
    assert (Hw1 : wire (world_after r1) (sent (world_after r1)) = None).
    { rewrite H1. cbn. apply Hw. }
    rewrite Hw1. unfold srv_list_secret_backends, guarded.
    assert (Hi1 : initialized (server (world_after r1)) = true)
      by (rewrite H1; exact Hi).
    assert (Hs1 : sealed (server (world_after r1)) = false)
      by (rewrite H1; exact Hs).
    rewrite Hi1, Hs1. cbn [negb returned world_after effects preceded].
    rewrite (bool_decide_eq_true_2 _ Hin). reflexivity. }
  split; [by rewrite H1|]. split; [by rewrite H2|].
  split; [by rewrite H1|]. split; [by rewrite H2|].
  split; [by rewrite H1, H2|].
  split; [exact Hin|]. by rewrite H2.
Qed.

Lemma configure_secret_backend_twice_witness :
  let w := world_of true ∅ online ready_server in
  let c := mkClient VAULT_LOCALHOST_URL (Some "s.root") in
  let r1 := configure_secret_backend c "charm-foo" w in
  let r2 := configure_secret_backend c "charm-foo" (world_after r1) in
  length (List.filter is_enable_secret_backend (effects r1 ++ effects r2))
    = 1%nat.
Proof.
  intros w c r1 r2.
  assert (Hfresh : "charm-foo" +:+ "/" ∉ secret_backends (server w)).
  { apply (bool_decide_eq_false_1 _). vm_compute. reflexivity. }
  destruct (configure_secret_backend_twice c "charm-foo" w
              eq_refl (λ n, eq_refl) eq_refl eq_refl Hfresh)
    as (_ & _ & _ & _ & Hone & _).
  exact Hone.
Defined.

(** ** Laws of the monad *)

Lemma preceded_nil {A} (r : Run A) : preceded [] r = r.
Proof. by destruct r. Qed.

Lemma preceded_app {A} (a b : list Event) (r : Run A) :
  preceded (a ++ b) r = preceded a (preceded b r).
Proof. unfold preceded. cbn [returned world_after effects]. by rewrite app_assoc. Qed.

Lemma ret_bind {A B} (a : A) (f : A → Hook B) w : bind (ret a) f w = f a w.
Proof. unfold bind, ret. cbn [returned world_after effects]. apply preceded_nil. Qed.

Lemma bind_assoc {A B C} (m : Hook A) (f : A → Hook B) (g : B → Hook C) w :
  bind (bind m f) g w = bind m (λ a, bind (f a) g) w.
Proof.
  unfold bind. destruct (returned (m w)) as [a|e]; [|reflexivity].
  cbn [preceded returned world_after effects].
  destruct (returned (f a (world_after (m w)))) as [b|e]; [|reflexivity].
  unfold preceded. cbn [returned world_after effects]. by rewrite app_assoc.
Qed.

Lemma bind_ext {A B} (m : Hook A) (f g : A → Hook B) w :
  (∀ a w', f a w' = g a w') → bind m f w = bind m g w.
Proof.
  intros H. unfold bind. destruct (returned (m w)); [|reflexivity]. by rewrite H.
Qed.

(** ** Lists of effects *)

(** If no element of [l1] satisfies [p] and [e] does, then an occurrence of
    [e] in [l1 ++ l2] lies in [l2]. *)
Lemma prefix_without (p : Event → bool) l1 : ∀ l2 pre e post,
  Forall (λ x, p x = false) l1 →
  p e = true →
  (l1 ++ l2 = pre ++ e :: post)%list →
  ∃ m, pre = (l1 ++ m)%list ∧ l2 = (m ++ e :: post)%list.
Proof.
  induction l1 as [|x l1 IH]; intros l2 pre e post Hl1 He Heq.
  - by exists pre.
  - apply Forall_cons in Hl1 as [Hx Hl1]. destruct pre as [|y pre].
    + simpl in Heq. injection Heq as -> _. congruence.
    + simpl in Heq. injection Heq as -> Heq.
      destruct (IH _ _ _ _ Hl1 He Heq) as (m & -> & ->). by exists m.
Qed.

Lemma not_in_without (p : Event → bool) l pre e post :
  Forall (λ x, p x = false) l → p e = true → l ≠ (pre ++ e :: post)%list.
Proof.
  intros Hl He ->. apply Forall_app in Hl as [_ Hl].
  apply Forall_cons in Hl as [Hx _]. congruence.
Qed.

(** ** Unsealing *)

Section Unseal.
Context (c : Client).

Lemma for_each_unseal_effects ks w :
  Forall (λ e, ∃ k o, e = Request (token c) (Unseal k) o)
    (effects (for_each ks (λ key, client_unseal c key) w)).
Proof.
  apply for_each_effects_Forall. intros k w'. unfold client_unseal.
  destruct (request_effects (token c) (Unseal k) (srv_unseal k) w') as [o ->].
  repeat constructor. by do 2 eexists.
Qed.

Lemma for_each_unseal_env_kept ks : ∀ w,
  env_kept w (world_after (for_each ks (λ key, client_unseal c key) w)).
Proof.
  induction ks as [|k ks IH]; intros w; [apply env_kept_refl|].
  simpl. unfold bind.
  pose proof (request_env_kept (token c) (Unseal k) (srv_unseal k) w) as Hk.
  fold (client_unseal c k) in Hk.
  destruct (returned (client_unseal c k w)); [|exact Hk].
  cbn [preceded world_after]. eapply env_kept_trans; [exact Hk|apply IH].
Qed.

(** When the loop returns, every key was submitted, in order, and the
    server accepted each. *)
Lemma for_each_unseal_ok ks : ∀ w,
  returned (for_each ks (λ key, client_unseal c key) w) = Ok tt →
  effects (for_each ks (λ key, client_unseal c key) w)
    = (λ k, Request (token c) (Unseal k) Answered) <$> ks.
Proof.
  induction ks as [|k ks IH]; intros w; [reflexivity|].
  simpl. unfold bind.
  destruct (returned (client_unseal c k w)) as [[]|e] eqn:Hr; [|discriminate].
  cbn [preceded returned effects]. intros Hrest. rewrite (IH _ Hrest).
  f_equal. unfold client_unseal, request in *.
  destruct (wire w (sent w)); [discriminate|].
  destruct (srv_unseal k (server w)) as [[e|a] s]; [discriminate|reflexivity].
Qed.
End Unseal.

Lemma unseal_vault_none_run w :
  unseal_vault None w =
    match leader_db w !! "keys" with
    | None => mkRun (Raised (KeyError "keys")) w []
    | Some doc =>
        match json_loads doc with
        | None => mkRun (Raised (JSONDecodeError doc)) w []
        | Some ks =>
            for_each ks
              (λ key, client_unseal (mkClient VAULT_LOCALHOST_URL None) key) w
        end
    end.
Proof.
  unfold unseal_vault, bind. rewrite get_client_localhost.
  cbn [leader_get_all returned world_after effects]. unfold subscript, loads.
  destruct (leader_db w !! "keys") as [doc|]; [|reflexivity].
  cbn [ret returned world_after effects preceded app].
  destruct (json_loads doc) as [ks|]; [|reflexivity].
  cbn [ret returned world_after effects preceded app].
  rewrite !preceded_nil. reflexivity.
Qed.

Lemma unseal_vault_none_effects w :
  Forall (λ e, ∃ k o, e = Request None (Unseal k) o)
    (effects (unseal_vault None w)).
Proof.
  rewrite unseal_vault_none_run.
  destruct (leader_db w !! "keys") as [doc|]; [|constructor].
  destruct (json_loads doc) as [ks|]; [|constructor].
  apply (for_each_unseal_effects (mkClient VAULT_LOCALHOST_URL None)).
Qed.

Lemma unseal_vault_none_env_kept w :
  env_kept w (world_after (unseal_vault None w)).
Proof.
  rewrite unseal_vault_none_run.
  destruct (leader_db w !! "keys") as [doc|]; [|apply env_kept_refl].
  destruct (json_loads doc) as [ks|]; [|apply env_kept_refl].
  apply for_each_unseal_env_kept.
Qed.

(** When [unseal_vault()] returns, the leader settings hold a list of keys
    and each of them went to the server and was accepted. *)
Lemma unseal_vault_none_ok w :
  returned (unseal_vault None w) = Ok tt →
  ∃ doc ks,
    leader_db w !! "keys" = Some doc ∧ json_loads doc = Some ks ∧
    effects (unseal_vault None w)
      = (λ k, Request None (Unseal k) Answered) <$> ks.
Proof.
  rewrite unseal_vault_none_run.
  destruct (leader_db w !! "keys") as [doc|] eqn:Hdoc; [|discriminate].
  destruct (json_loads doc) as [ks|] eqn:Hks; [|discriminate].
  intros Hr. exists doc, ks. split; [done|]. split; [done|].
  apply (for_each_unseal_ok (mkClient VAULT_LOCALHOST_URL None) ks w Hr).
Qed.

(** ** The reconciliation pass, step by step *)

Lemma request_class {A} (P : Event → Prop) tok call (h : Handler A) w :
  (∀ outcome, P (Request tok call outcome)) →
  Forall P (effects (request tok call h w)).
Proof.
  intros HP. destruct (request_effects tok call h w) as [o ->].
  repeat constructor. apply HP.
Qed.

Lemma setup_charm_vault_access_provisions tok w :
  Forall (λ e, is_provisioning e = true)
    (effects (setup_charm_vault_access tok w)).
Proof.
  unfold setup_charm_vault_access.
  apply bind_effects_Forall; [destruct (negb _); constructor|].
  intros tok' _. apply bind_effects_Forall.
  { unfold enable_approle_auth. apply bind_effects_Forall.
    - by apply request_class.
    - intros backends _. destruct (negb _); [|constructor].
      by apply request_class. }
  intros _ _. apply bind_effects_Forall; [by apply request_class|].
  intros _ _. unfold create_local_charm_access_role.
  apply bind_effects_Forall; [by apply request_class|].
  intros _ _. by apply request_class.
Qed.

Lemma prepare_vault_provision_run w :
  prepare_vault_provision w =
    if leader_oracle w (leader_asked w)
    then (setup_charm_vault_access None ;; ret tt) (with_leader_asked w)
    else mkRun (Ok tt) (with_leader_asked w) [].
Proof.
  unfold prepare_vault_provision. unfold bind at 1.
  cbn [is_leader returned world_after effects]. rewrite preceded_nil.
  by destruct (leader_oracle w (leader_asked w)).
Qed.

Lemma prepare_vault_provision_effects w :
  Forall (λ e, is_provisioning e = true) (effects (prepare_vault_provision w)) ∧
  (effects (prepare_vault_provision w) ≠ [] →
   leader_oracle w (leader_asked w) = true).
Proof.
  rewrite prepare_vault_provision_run.
  destruct (leader_oracle w (leader_asked w)); [|by split].
  split; [|done]. apply bind_effects_Forall.
  - apply setup_charm_vault_access_provisions.
  - intros _ _. constructor.
Qed.

Lemma initialize_step_run h w :
  initialize_step h w =
    if h_initialized h then mkRun (Ok tt) w []
    else if leader_oracle w (leader_asked w)
         then initialize_vault 1 1 (with_leader_asked w)
         else mkRun (Ok tt) (with_leader_asked w) [].
Proof.
  unfold initialize_step. destruct (h_initialized h); [reflexivity|].
  cbn [negb]. unfold bind at 1.
  cbn [is_leader returned world_after effects]. rewrite preceded_nil.
  by destruct (leader_oracle w (leader_asked w)).
Qed.

(** The initialise step never changes who answers the leadership
    queries. *)
Lemma initialize_step_oracle h w :
  leader_oracle (world_after (initialize_step h w)) = leader_oracle w.
Proof.
  rewrite initialize_step_run. destruct (h_initialized h); [reflexivity|].
  destruct (leader_oracle w (leader_asked w)); [|reflexivity].
  rewrite initialize_vault_run. cbn [wire sent server with_leader_asked].
  destruct (wire w (sent w)); [reflexivity|].
  by destruct (initialized (server w)).
Qed.

(** Where the unit is not the leader, or the probe saw an initialised
    server, the step does nothing. *)
Lemma initialize_step_skipped h w :
  h_initialized h = true ∨ leader_oracle w (leader_asked w) = false →
  returned (initialize_step h w) = Ok tt ∧
  effects (initialize_step h w) = [] ∧
  leader_db (world_after (initialize_step h w)) = leader_db w ∧
  server (world_after (initialize_step h w)) = server w.
Proof.
  rewrite initialize_step_run. intros [Hi|Hl].
  - by rewrite Hi.
  - destruct (h_initialized h); [done|]. by rewrite Hl.
Qed.

Lemma initialize_step_part h w later :
  (returned (initialize_step h w) ≠ Ok tt → later = []) →
  initialize_part (server w) (effects (initialize_step h w)) later ∧
  (effects (initialize_step h w) ≠ [] →
   leader_oracle w (leader_asked w) = true).
Proof.
  rewrite initialize_step_run. intros Hlater.
  destruct (h_initialized h); [by split; [left|]|].
  destruct (leader_oracle w (leader_asked w)); [|by split; [left|]].
  split; [|done]. revert Hlater.
  rewrite initialize_vault_run. cbn [wire sent server with_leader_asked].
  destruct (wire w (sent w)) as [msg|].
  { intros Hlater. right; left. exists (Lost msg).
    split; [done|]. split; [reflexivity|]. by apply Hlater. }
  destruct (initialized (server w)).
  { intros Hlater. right; left. exists (Refused AlreadyInitialized).
    split; [done|]. split; [reflexivity|]. by apply Hlater. }
  intros _. by right; right.
Qed.

Lemma prepare_vault_not_running w :
  vault_running w = false →
  prepare_vault w
    = mkRun (Ok tt) w [Log "Defering unlock vault not running "].
Proof.
  intros H. unfold prepare_vault, bind, service_running.
  cbn [returned world_after effects]. rewrite H. reflexivity.
Qed.

(** On a running vault the pass is its bootstrap part followed by the
    provisioning step. *)
Lemma prepare_vault_running w :
  vault_running w = true →
  prepare_vault w = (prepare_vault_bootstrap ;; prepare_vault_provision) w.
Proof.
  intros H. unfold prepare_vault. unfold bind at 1.
  cbn [service_running returned world_after effects]. rewrite H, preceded_nil.
  cbn [negb]. unfold prepare_vault_bootstrap. rewrite bind_assoc.
  apply bind_ext. intros h w1.
  change (bind (initialize_step h)
            (λ _, bind (unseal_step h) (λ _, prepare_vault_provision)) w1
          = bind (bind (initialize_step h)
                    (λ _, bind (unseal_step h) (λ _, ret h)))
              (λ _, prepare_vault_provision) w1).
  rewrite bind_assoc. apply bind_ext. intros _ w2.
  rewrite bind_assoc. apply bind_ext. intros _ w3.
  by rewrite ret_bind.
Qed.

Lemma unseal_step_effects h w :
  Forall (λ e, is_unseal_call e = true) (effects (unseal_step h w)).
Proof.
  unfold unseal_step. destruct (h_sealed h); [|constructor].
  eapply Forall_impl; [apply unseal_vault_none_effects|].
  by intros e (k & o & ->).
Qed.

Lemma unseal_step_env_kept h w : env_kept w (world_after (unseal_step h w)).
Proof.
  unfold unseal_step. destruct (h_sealed h); [|apply env_kept_refl].
  apply unseal_vault_none_env_kept.
Qed.

(** The bootstrap part of a pass, as the three runs it is made of. *)
Lemma prepare_vault_bootstrap_run w :
  let r0 := get_vault_health w in
  match returned r0 with
  | Raised e =>
      prepare_vault_bootstrap w = mkRun (Raised e) (world_after r0) (effects r0)
  | Ok h =>
      let r1 := initialize_step h (world_after r0) in
      match returned r1 with
      | Raised e =>
          prepare_vault_bootstrap w
            = mkRun (Raised e) (world_after r1) (effects r0 ++ effects r1)
      | Ok _ =>
          let r2 := unseal_step h (world_after r1) in
          prepare_vault_bootstrap w
            = mkRun (match returned r2 with
                     | Ok _ => Ok h
                     | Raised e => Raised e
                     end)
                (world_after r2) (effects r0 ++ effects r1 ++ effects r2)
      end
  end.
Proof.
  intros r0. unfold prepare_vault_bootstrap, bind. fold r0.
  destruct (returned r0) as [h|e]; [|reflexivity].
  cbn zeta. destruct (returned (initialize_step h (world_after r0))) as [[]|e];
    [|reflexivity].
  destruct (returned (unseal_step h (world_after (initialize_step h (world_after r0)))))
    as [[]|e]; unfold preceded, ret; cbn [returned world_after effects];
    by rewrite ?app_nil_r.
Qed.

(** The effects of any pass, in four consecutive parts: probes (or the
    log line of a pass that defers), the initialise step, the unseal
    requests, the provisioning requests. *)
Lemma prepare_vault_shape w :
  ∃ hs ini us ps,
    effects (prepare_vault w) = (hs ++ ini ++ us ++ ps)%list ∧
    Forall (λ e, is_quiet e = true) hs ∧
    initialize_part (server w) ini (us ++ ps) ∧
    Forall (λ e, is_unseal_call e = true) us ∧
    Forall (λ e, is_provisioning e = true) ps ∧
    (ini ≠ [] → ∃ n, leader_oracle w n = true).
Proof.
  destruct (vault_running w) eqn:Hrun.
  2: { rewrite (prepare_vault_not_running w Hrun).
       exists [Log "Defering unlock vault not running "], [], [], [].
       refine (conj _ (conj _ (conj _ (conj _ (conj _ _)))));
         [reflexivity|by repeat constructor|by left|constructor|constructor|done]. }
  rewrite (prepare_vault_running w Hrun).
  pose proof (prepare_vault_bootstrap_run w) as Hb. cbn zeta in Hb.
  pose proof (get_vault_health_effects w) as Hhs.
  apply (Forall_impl _ (λ e, is_quiet e = true)) in Hhs.
  2: { intros [| | | |? [] ?]; simpl; congruence. }
  pose proof (get_vault_health_env_kept w) as (_ & _ & Ho & Ha & _ & _).
  destruct (returned (get_vault_health w)) as [h|e].
  2: { rewrite (bind_raised _ _ _ e) by (by rewrite Hb).
       rewrite Hb. cbn [effects].
       exists (effects (get_vault_health w)), [], [], [].
       rewrite !app_nil_r.
       refine (conj _ (conj _ (conj _ (conj _ (conj _ _)))));
         [reflexivity|exact Hhs|by left|constructor|constructor|done]. }
  set (w1 := world_after (get_vault_health w)) in *.
  assert (Hpart : ∀ later,
    (returned (initialize_step h w1) ≠ Ok tt → later = []) →
    initialize_part (server w) (effects (initialize_step h w1)) later ∧
    (effects (initialize_step h w1) ≠ [] →
     leader_oracle w1 (leader_asked w1) = true)).
  { intros later Hl. rewrite <- (get_vault_health_server w).
    by apply initialize_step_part. }
  assert (Hlead : effects (initialize_step h w1) ≠ [] →
                  ∃ n, leader_oracle w n = true).
  { intros Hne. destruct (Hpart []) as [_ Hl]; [done|].
    exists (leader_asked w1). rewrite <- Ho. by apply Hl. }
  destruct (returned (initialize_step h w1)) as [[]|e] eqn:Hr1.
  2: { rewrite (bind_raised _ _ _ e) by (by rewrite Hb).
       rewrite Hb. cbn [effects].
       exists (effects (get_vault_health w)), (effects (initialize_step h w1)),
         [], [].
       rewrite !app_nil_r.
       refine (conj _ (conj _ (conj _ (conj _ (conj _ _)))));
         [reflexivity|exact Hhs|by apply Hpart|constructor|constructor
         |exact Hlead]. }
  set (w2 := world_after (initialize_step h w1)) in *.
  pose proof (unseal_step_effects h w2) as Hus.
  destruct (returned (unseal_step h w2)) as [[]|e] eqn:Hr2.
  - rewrite (bind_ok _ _ _ h) by (by rewrite Hb).
    rewrite Hb. cbn [preceded effects world_after].
    exists (effects (get_vault_health w)), (effects (initialize_step h w1)),
      (effects (unseal_step h w2)),
      (effects (prepare_vault_provision (world_after (unseal_step h w2)))).
    refine (conj _ (conj _ (conj _ (conj _ (conj _ _)))));
      [by rewrite <- !app_assoc|exact Hhs|apply Hpart; congruence|exact Hus
      |apply prepare_vault_provision_effects|exact Hlead].
  - rewrite (bind_raised _ _ _ e) by (by rewrite Hb).
    rewrite Hb. cbn [effects].
    exists (effects (get_vault_health w)), (effects (initialize_step h w1)),
      (effects (unseal_step h w2)), [].
    rewrite !app_nil_r.
    refine (conj _ (conj _ (conj _ (conj _ (conj _ _)))));
      [reflexivity|exact Hhs|apply Hpart; congruence|exact Hus|constructor
      |exact Hlead].
Qed.

(** ** The reconciliation pass: leadership and sequencing *)

Ltac by_class := intros [| | | |? [] ?]; simpl; intros; congruence.

Lemma Exists_Forall_false (p : Event → bool) l :
  Exists (λ x, p x = true) l → Forall (λ x, p x = false) l → False.
Proof.
  rewrite Exists_exists, Forall_forall. intros (x & Hin & Hx) Hall.
  specialize (Hall x Hin). congruence.
Qed.

(** C5.  In a pass in which every [is_leader()] query answers false, no
    write to the leader settings and no [initialize] request occurs,
    whatever the server's health and whether or not the pass ends with an
    exception. *)
Theorem prepare_vault_follower_is_passive (w : World) :
  (∀ n, leader_oracle w n = false) →
  Forall (λ e, is_leader_write e = false ∧ is_initialize_call e = false)
    (effects (prepare_vault w)).
Proof.
  intros Hfollower.
  destruct (prepare_vault_shape w) as (hs & ini & us & ps & -> & Hhs & _ & Hus & Hps & Hl).
  assert (ini = []) as ->.
  { destruct ini as [|x ini]; [done|]. destruct Hl as [n Hn]; [done|].
    rewrite Hfollower in Hn. discriminate. }
  rewrite !Forall_app. repeat split; try constructor.
  - eapply Forall_impl; [exact Hhs|]. intros [| | | |? [] ?]; simpl; by intros.
  - eapply Forall_impl; [exact Hus|]. intros [| | | |? [] ?]; simpl; by intros.
  - eapply Forall_impl; [exact Hps|]. intros [| | | |? [] ?]; simpl; by intros.
Qed.

Lemma prepare_vault_follower_is_passive_witness :
  let w := world_of false ∅ online fresh_server in
  (∀ n, leader_oracle w n = false) ∧
  returned (prepare_vault w) = Raised (KeyError "keys") ∧
  Forall (λ e, is_leader_write e = false ∧ is_initialize_call e = false)
    (effects (prepare_vault w)).
Proof.
  intros w. split; [intros n; reflexivity|]. split; [reflexivity|].
  apply (prepare_vault_follower_is_passive w). intros n. reflexivity.
Defined.

(** C6.  In every pass, a write to the leader settings comes directly after
    an answered [initialize] request and holds the root token and keys the
    server handed out; and when [initialize] was answered in the pass, every
    unseal request comes after that write: no key is submitted before the
    secrets are persisted. *)
Theorem prepare_vault_persists_before_unseal (w : World) :
  (∀ pre kv post,
     effects (prepare_vault w) = (pre ++ LeaderSet kv :: post)%list →
     kv = [("root_token", fresh_root_token (server w));
           ("keys", json_dumps (fresh_keys (server w)))] ∧
     ∃ pre', pre = (pre' ++ [Request None (Initialize 1 1) Answered])%list) ∧
  (∀ pre e post,
     effects (prepare_vault w) = (pre ++ e :: post)%list →
     is_unseal_call e = true →
     Exists (λ x, is_initialized_ok x = true) (effects (prepare_vault w)) →
     ∃ pre1 kv pre2,
       pre = (pre1 ++ Request None (Initialize 1 1) Answered
                   :: LeaderSet kv :: pre2)%list).
Proof.
  destruct (prepare_vault_shape w)
    as (hs & ini & us & ps & -> & Hhs & Hini & Hus & Hps & _).
  assert (Hup_w : Forall (λ x, is_leader_write x = false) (us ++ ps)).
  { apply Forall_app. split; (eapply Forall_impl; [eassumption|by_class]). }
  assert (Hup_i : Forall (λ x, is_initialized_ok x = false) (us ++ ps)).
  { apply Forall_app. split; (eapply Forall_impl; [eassumption|by_class]). }
  split.
  - intros pre kv post Heq.
    apply (prefix_without is_leader_write) in Heq as (m & -> & Heq);
      [|eapply Forall_impl; [exact Hhs|by_class]|done].
    destruct Hini as [->|[(o & Ho & -> & Hnil)| ->]].
    + by apply (not_in_without is_leader_write) in Heq.
    + rewrite Hnil in Heq.
      apply (not_in_without is_leader_write) in Heq; [done| |done].
      by repeat constructor.
    + destruct m as [|x [|y m]]; simpl in Heq.
      * discriminate Heq.
      * injection Heq as <- <- _. split; [done|]. by exists hs.
      * injection Heq as _ _ Heq.
        by apply (not_in_without is_leader_write) in Heq.
  - intros pre e post Heq He Hex.
    apply (prefix_without is_unseal_call) in Heq as (m & -> & Heq);
      [|eapply Forall_impl; [exact Hhs|by_class]|done].
    destruct Hini as [->|[(o & Ho & -> & Hnil)| ->]].
    + exfalso. apply (Exists_Forall_false is_initialized_ok _ Hex).
      apply Forall_app. split; [eapply Forall_impl; [exact Hhs|by_class]|].
      exact Hup_i.
    + rewrite Hnil in Heq.
      apply (not_in_without is_unseal_call) in Heq; [done| |done].
      by repeat constructor.
    + apply (prefix_without is_unseal_call) in Heq as (m2 & -> & _);
        [|by repeat constructor|done].
      by eexists hs, _, m2.
Qed.

Lemma prepare_vault_persists_before_unseal_witness :
  let w := world_of true ∅ online fresh_server in
  let before :=
    [Request None (HttpGet (VAULT_HEALTH_URL VAULT_LOCALHOST_URL)) Answered;
     Request None (Initialize 1 1) Answered;
     LeaderSet [("root_token", "s.root"); ("keys", json_dumps ["k1"])]] in
  take 4 (effects (prepare_vault w))
    = (before ++ [Request None (Unseal "k1") Answered])%list ∧
  ∃ pre1 kv pre2,
    before = (pre1 ++ Request None (Initialize 1 1) Answered
                   :: LeaderSet kv :: pre2)%list.
Proof.
  intros w before. split; [vm_compute; reflexivity|].
  destruct (prepare_vault_persists_before_unseal w) as [_ H].
  apply (H before (Request None (Unseal "k1") Answered)
           (drop 4 (effects (prepare_vault w)))).
  - vm_compute. reflexivity.
  - reflexivity.
  - apply Exists_exists. exists (Request None (Initialize 1 1) Answered).
    split; [|reflexivity]. apply list_elem_of_In. vm_compute. tauto.
Defined.

(** ** The reconciliation pass: missing keys *)

(** C2 as stated fails: on a follower whose server is initialised and
    sealed, with no keys in the leader settings, the pass does not defer.
    [unseal_vault] raises [KeyError] on [leader_get()['keys']] and the
    exception leaves [prepare_vault]. *)
Lemma prepare_vault_missing_keys_cex :
  let w := world_of false ∅ online sealed_server in
  vault_running w = true ∧
  returned (get_vault_health w) = Ok (mkHealth true true) ∧
  leader_db w !! "keys" = None ∧
  returned (unseal_vault None w) = Raised (KeyError "keys") ∧
  returned (prepare_vault w) = Raised (KeyError "keys") ∧
  returned (prepare_vault w) ≠ Ok tt.
Proof. by repeat split. Qed.

(** C2, amended.  In a pass in which the probe reports a sealed server, no
    initialisation takes place (the server is initialised or the unit is
    not the leader) and the leader settings hold no [keys], the unseal
    step raises [KeyError('keys')] before any key is submitted, and the
    exception propagates out of [prepare_vault]: the pass fails after the
    health probes, without unsealing and without provisioning. *)
Theorem prepare_vault_missing_keys (w : World) (h : Health) :
  vault_running w = true →
  returned (get_vault_health w) = Ok h →
  h_sealed h = true →
  h_initialized h = true ∨ leader_oracle w (leader_asked w) = false →
  leader_db w !! "keys" = None →
  returned (prepare_vault w) = Raised (KeyError "keys") ∧
  effects (prepare_vault w) = effects (get_vault_health w).
Proof.
  intros Hrun Hh Hsealed Hskip Hkeys.
  pose proof (get_vault_health_env_kept w) as (_ & _ & Ho & Ha & Hdb & _).
  set (w1 := world_after (get_vault_health w)) in *.
  destruct (initialize_step_skipped h w1) as (Hr1 & He1 & Hdb1 & _).
  { destruct Hskip as [Hi|Hl]; [by left|right]. by rewrite Ho, Ha. }
  set (w2 := world_after (initialize_step h w1)) in *.
  assert (Hu : unseal_step h w2 = mkRun (Raised (KeyError "keys")) w2 []).
  { unfold unseal_step. rewrite Hsealed, unseal_vault_none_run.
    by rewrite Hdb1, Hdb, Hkeys. }
  pose proof (prepare_vault_bootstrap_run w) as Hb. cbn zeta in Hb.
  rewrite Hh in Hb. fold w1 in Hb. rewrite Hr1 in Hb. fold w2 in Hb.
  rewrite Hu, He1 in Hb. cbn [returned world_after effects] in Hb.
  rewrite !app_nil_r in Hb.
  rewrite (prepare_vault_running w Hrun).
  rewrite (bind_raised _ _ _ (KeyError "keys")) by (by rewrite Hb).
  rewrite Hb. by split.
Qed.

Lemma prepare_vault_missing_keys_witness :
  let w := world_of false ∅ online sealed_server in
  returned (prepare_vault w) = Raised (KeyError "keys") ∧
  effects (prepare_vault w) = effects (get_vault_health w).
Proof.
  intros w.
  apply (prepare_vault_missing_keys w (mkHealth true true));
    [reflexivity|reflexivity|reflexivity|by left|reflexivity].
Defined.

(** ** The reconciliation pass: provisioning *)

Lemma then_ret_effects {A} (m : Hook A) w :
  effects ((m ;; ret tt) w) = effects (m w).
Proof.
  unfold bind. destruct (returned (m w)); [|reflexivity].
  unfold preceded, ret. cbn [effects]. apply app_nil_r.
Qed.

Lemma initialize_step_effects h w :
  Forall (λ e, is_provisioning e = false) (effects (initialize_step h w)).
Proof.
  destruct (initialize_step_part h w []) as [Hp _]; [done|].
  destruct Hp as [->|[(o & _ & -> & _)| ->]]; by repeat constructor.
Qed.

(** C4 as stated fails: the unit is leader, the server is initialised and
    sealed and needs two key shares, and the leader settings hold one.  The
    pass submits that key, the server accepts it and stays sealed, and the
    pass goes on to provision: its first provisioning request is sent to a
    sealed server, which refuses it as sealed. *)
Lemma prepare_vault_provisions_sealed_cex :
  let w := world_of true {[ "keys" := json_dumps ["k1"] ]} online sealed_server in
  let b := prepare_vault_bootstrap w in
  returned b = Ok (mkHealth true true) ∧
  effects b
    = [Request None (HttpGet (VAULT_HEALTH_URL VAULT_LOCALHOST_URL)) Answered;
       Request None (Unseal "k1") Answered] ∧
  sealed (server (world_after b)) = true ∧
  effects (prepare_vault w)
    = (effects b ++ [Request None ListAuthBackends (Refused VaultSealed)])%list ∧
  returned (prepare_vault w) = Raised (VaultError VaultSealed).
Proof. vm_compute. by repeat split. Qed.

(** The same with no key held at all: nothing is submitted and the pass
    provisions all the same. *)
Example prepare_vault_provisions_sealed_no_keys :
  let w := world_of true {[ "keys" := json_dumps [] ]} online sealed_server in
  effects (prepare_vault w)
    = [Request None (HttpGet (VAULT_HEALTH_URL VAULT_LOCALHOST_URL)) Answered;
       Request None ListAuthBackends (Refused VaultSealed)].
Proof. vm_compute. reflexivity. Qed.

(** C4, amended.  In a pass on a running vault, provisioning is gated by
    leadership alone and comes after the unseal step.  No provisioning
    request is sent during the bootstrap part; if that part raises, the
    pass ends there; if it returns, [setup_charm_vault_access] is invoked
    exactly when [is_leader()] then answers true, without reading the
    sealed flag again, and when the probe had reported a sealed server
    every key held in the leader settings has by then been submitted to the
    server and accepted. *)
Theorem prepare_vault_provisioning_gate (w : World) :
  vault_running w = true →
  Forall (λ e, is_provisioning e = false)
    (effects (prepare_vault_bootstrap w)) ∧
  (∀ e, returned (prepare_vault_bootstrap w) = Raised e →
     returned (prepare_vault w) = Raised e ∧
     effects (prepare_vault w) = effects (prepare_vault_bootstrap w)) ∧
  (∀ h w1, returned (prepare_vault_bootstrap w) = Ok h →
     w1 = world_after (prepare_vault_bootstrap w) →
     effects (prepare_vault w)
       = (effects (prepare_vault_bootstrap w) ++
          if leader_oracle w1 (leader_asked w1)
          then effects (setup_charm_vault_access None (with_leader_asked w1))
          else [])%list ∧
     (h_sealed h = true →
      ∃ doc ks before,
        leader_db w1 !! "keys" = Some doc ∧ json_loads doc = Some ks ∧
        effects (prepare_vault_bootstrap w)
          = (before ++ ((λ k, Request None (Unseal k) Answered) <$> ks))%list)).
Proof.
  intros Hrun.
  pose proof (prepare_vault_bootstrap_run w) as Hb. cbn zeta in Hb.
  pose proof (get_vault_health_effects w) as Hhs.
  apply (Forall_impl _ (λ e, is_provisioning e = false)) in Hhs; [|by_class].
  rewrite (prepare_vault_running w Hrun).
  destruct (returned (get_vault_health w)) as [h|e].
  2: { rewrite Hb, (bind_raised _ _ _ e) by (by rewrite Hb). rewrite Hb.
       cbn [returned effects world_after].
       split; [done|]. split; [by intros ? [= <-]|by intros ? ? [=]]. }
  set (w0 := world_after (get_vault_health w)) in *.
  pose proof (initialize_step_effects h w0) as His.
  destruct (returned (initialize_step h w0)) as [[]|e].
  2: { rewrite Hb, (bind_raised _ _ _ e) by (by rewrite Hb). rewrite Hb.
       cbn [returned effects world_after].
       split; [by apply Forall_app|].
       split; [by intros ? [= <-]|by intros ? ? [=]]. }
  set (w2 := world_after (initialize_step h w0)) in *.
  pose proof (unseal_step_effects h w2) as Hus.
  apply (Forall_impl _ (λ e, is_provisioning e = false)) in Hus; [|by_class].
  assert (Hall : Forall (λ e, is_provisioning e = false)
            (effects (get_vault_health w) ++ effects (initialize_step h w0)
             ++ effects (unseal_step h w2))).
  { rewrite !Forall_app. by repeat split. }
  destruct (returned (unseal_step h w2)) as [[]|e] eqn:Hr2.
  2: { rewrite Hb, (bind_raised _ _ _ e) by (by rewrite Hb). rewrite Hb.
       cbn [returned effects world_after].
       split; [done|]. split; [by intros ? [= <-]|by intros ? ? [=]]. }
  rewrite (bind_ok _ _ _ h) by (by rewrite Hb).
  rewrite Hb. cbn [preceded returned world_after effects].
  split; [exact Hall|]. split; [by intros ? [=]|].
  intros h' w1 [= <-] ->. split.
  - f_equal. rewrite prepare_vault_provision_run.
    destruct (leader_oracle _ _); [|reflexivity]. apply then_ret_effects.
  - intros Hsealed. unfold unseal_step in *. rewrite Hsealed in *.
    destruct (unseal_vault_none_ok w2 Hr2) as (doc & ks & Hdoc & Hks & He).
    pose proof (unseal_vault_none_env_kept w2) as (_ & _ & _ & _ & Hdb & _).
    exists doc, ks,
      (effects (get_vault_health w) ++ effects (initialize_step h w0))%list.
    split; [by rewrite Hdb|]. split; [done|].
    by rewrite He, app_assoc.
Qed.

Lemma prepare_vault_provisioning_gate_witness :
  let w := world_of true {[ "keys" := json_dumps ["k1"] ]} online ready_server in
  vault_running w = true ∧
  returned (prepare_vault_bootstrap w) = Ok (mkHealth true false) ∧
  Forall (λ e, is_provisioning e = false)
    (effects (prepare_vault_bootstrap w)) ∧
  length (effects (prepare_vault w)) = 6%nat.
Proof.
  intros w.
  assert (Hb : returned (prepare_vault_bootstrap w) = Ok (mkHealth true false))
    by (vm_compute; reflexivity).
  destruct (prepare_vault_provisioning_gate w eq_refl) as (Hquiet & _ & Hok).
  destruct (Hok _ _ Hb eq_refl) as [He _].
  split; [reflexivity|]. split; [exact Hb|]. split; [exact Hquiet|].
  rewrite He. vm_compute. reflexivity.
Defined.


(** ** The codec and the whole pass, as checks of the model *)

Lemma string_app_assoc (a b c : string) : (a +:+ b) +:+ c = a +:+ b +:+ c.
Proof.
  induction a as [|x a IH]; [reflexivity|].
  change (String x ((a +:+ b) +:+ c) = String x (a +:+ b +:+ c)).
  by rewrite IH.
Qed.

(** The decoder, inside a string, reads an escaped string back up to its
    closing quote. *)
Lemma json_scan_string s : ∀ acc cur rest,
  json_scan (JString acc cur) (json_escape s +:+ dq +:+ rest)
    = json_scan
        (JAfter (close_string (rev (String.list_ascii_of_string s) ++ cur) :: acc))
        rest.
Proof.
  induction s as [|c s IH]; intros acc cur rest; [reflexivity|].
  cbn [json_escape String.list_ascii_of_string rev].
  rewrite <- app_assoc. cbn [app].
  destruct (bool_decide (c = ascii_of_nat 34)) eqn:Hq.
  - apply bool_decide_eq_true_1 in Hq as ->. cbn. apply IH.
  - destruct (bool_decide (c = ascii_of_nat 92)) eqn:Hb.
    + apply bool_decide_eq_true_1 in Hb as ->. cbn. apply IH.
    + cbn [orb].
      change (String c (json_escape s) +:+ dq +:+ rest)
        with (String c (json_escape s +:+ dq +:+ rest)).
      cbn [json_scan]. rewrite Hq, Hb. apply IH.
Qed.

Lemma json_join_rest s l :
  join ", " ((λ s, quoted (json_escape s)) <$> (s :: l)) +:+ "]"
    = quoted (json_escape s) +:+ json_rest l.
Proof.
  revert s. induction l as [|t l IH]; intros s; [reflexivity|].
  change (join ", " ((λ s, quoted (json_escape s)) <$> (s :: t :: l)))
    with (quoted (json_escape s) +:+ ", "
          +:+ join ", " ((λ s, quoted (json_escape s)) <$> (t :: l))).
  rewrite !string_app_assoc, IH. reflexivity.
Qed.

Lemma json_scan_rest l : ∀ acc,
  json_scan (JAfter acc) (json_rest l) = Some (rev acc ++ l)%list.
Proof.
  induction l as [|s l IH]; intros acc.
  - cbn. by rewrite app_nil_r.
  - cbn [json_rest]. unfold quoted. rewrite !string_app_assoc.
    change (json_scan (JAfter acc) (", " +:+ dq +:+ json_escape s +:+ dq +:+ json_rest l))
      with (json_scan (JString acc []) (json_escape s +:+ dq +:+ json_rest l)).
    rewrite json_scan_string, IH, app_nil_r. unfold close_string.
    rewrite rev_involutive, String.string_of_list_ascii_of_string.
    cbn [rev]. by rewrite <- app_assoc.
Qed.

(** [json.loads(json.dumps(keys)) == keys]: what [initialize_vault] stores
    is what [unseal_vault] reads back. *)
Lemma json_loads_dumps (l : list string) : json_loads (json_dumps l) = Some l.
Proof.
  destruct l as [|s l]; [reflexivity|].
  unfold json_loads, json_dumps. rewrite json_join_rest. unfold quoted.
  rewrite !string_app_assoc.
  change (json_scan JStart ("[" +:+ dq +:+ json_escape s +:+ dq +:+ json_rest l))
    with (json_scan (JString [] []) (json_escape s +:+ dq +:+ json_rest l)).
  rewrite json_scan_string, json_scan_rest, app_nil_r. unfold close_string.
  by rewrite rev_involutive, String.string_of_list_ascii_of_string.
Qed.

(** One pass on a fresh server with the unit as leader: one [initialize],
    the secrets persisted, one [unseal] per key, then the five provisioning
    requests, all answered; the server ends initialised and unsealed. *)
Example prepare_vault_fresh_leader :
  let r := prepare_vault (world_of true ∅ online fresh_server) in
  returned r = Ok tt ∧
  take 4 (effects r)
    = [Request None (HttpGet (VAULT_HEALTH_URL VAULT_LOCALHOST_URL)) Answered;
       Request None (Initialize 1 1) Answered;
       LeaderSet [("root_token", "s.root"); ("keys", json_dumps ["k1"])];
       Request None (Unseal "k1") Answered] ∧
  Forall (λ e, is_provisioning e = true) (drop 4 (effects r)) ∧
  length (drop 4 (effects r)) = 5%nat ∧
  initialized (server (world_after r)) = true ∧
  sealed (server (world_after r)) = false.
Proof. vm_compute. repeat split; repeat constructor. Qed.


(** * Further properties of the module *)

(** ** Addresses and clients *)

Lemma pretty_api_port : pretty 8200 = "8200".
Proof. vm_compute. reflexivity. Qed.

Lemma pretty_cluster_port : pretty 8201 = "8201".
Proof. vm_compute. reflexivity. Qed.

Lemma binding_address_run binding w :
  binding_address binding w
    = mkRun (Ok (default (private_ip w) (network_primary w binding))) w [].
Proof.
  unfold binding_address, try_except, handle, network_get_primary_address,
    unit_private_ip.
  by destruct (network_primary w binding).
Qed.

Lemma get_vault_url_run binding port address w :
  get_vault_url binding port address w
    = mkRun (Ok (url_scheme w +:+ "://" +:+ url_host binding address w
                 +:+ ":" +:+ pretty port)) w [].
Proof.
  unfold get_vault_url, bind, or_else, url_host, url_scheme, is_state.
  destruct address as [a|]; [destruct (String.eqb a EmptyString)|];
    rewrite ?binding_address_run;
    cbn [ret returned world_after effects preceded app];
    by destruct (bool_decide _).
Qed.

(** X1.  [get_vault_url] never raises and has no effect.  The host is the
    [address] argument when that is a non-empty string; otherwise it is the
    primary address of the binding, and the unit's private address when
    the binding cannot be resolved ([binding_address] catches
    [NotImplementedError]).  The scheme is [https] exactly when the flag
    [vault.ssl.available] is set.  [get_api_url] and [get_cluster_url] are
    this for the bindings [access] and [cluster] with the ports 8200 and
    8201. *)
Theorem get_vault_url_value (binding : string) (port : Z)
    (address : option string) (w : World) :
  binding_address binding w
    = mkRun (Ok (default (private_ip w) (network_primary w binding))) w [] ∧
  get_vault_url binding port address w
    = mkRun (Ok (url_scheme w +:+ "://" +:+ url_host binding address w
                 +:+ ":" +:+ pretty port)) w [] ∧
  get_api_url address w
    = mkRun (Ok (url_scheme w +:+ "://" +:+ url_host "access" address w
                 +:+ ":8200")) w [] ∧
  get_cluster_url address w
    = mkRun (Ok (url_scheme w +:+ "://" +:+ url_host "cluster" address w
                 +:+ ":8201")) w [].
Proof.
  split; [apply binding_address_run|]. split; [apply get_vault_url_run|].
  unfold get_api_url, get_cluster_url. rewrite !get_vault_url_run.
  by rewrite pretty_api_port, pretty_cluster_port.
Qed.

(** X2.  [get_client] never raises, has no effect and returns a client
    that carries no token.  Its URL is the [url] argument when that is a
    non-empty string, and otherwise the API URL of the [access] binding. *)
Theorem get_client_value (url : option string) (w : World) :
  get_client url w
    = mkRun (Ok (mkClient
                   (match url with
                    | Some u =>
                        if String.eqb u EmptyString
                        then url_scheme w +:+ "://" +:+ url_host "access" None w
                             +:+ ":8200"
                        else u
                    | None =>
                        url_scheme w +:+ "://" +:+ url_host "access" None w
                        +:+ ":8200"
                    end) None)) w [].
Proof.
  unfold get_client, bind, or_else, get_api_url.
  destruct url as [u|]; [destruct (String.eqb u EmptyString)|];
    rewrite ?get_vault_url_run, ?pretty_api_port; reflexivity.
Qed.

(** ** Provisioning on a server that answers *)

Lemma provisioned_operational s : operational s → operational (provisioned s).
Proof. by intros [? ?]. Qed.

(** X3.  [enable_approle_auth] is check-then-act on the list of auth
    backends: on an operational server that answers it returns with
    [approle/] enabled; when [approle/] is listed already it sends the list
    request only and leaves the server as it was, and otherwise it sends
    one [enable_auth_backend('approle')] after the list request. *)
Theorem enable_approle_auth_ensures (c : Client) (w : World) :
  answers w →
  operational (server w) →
  returned (enable_approle_auth c w) = Ok tt ∧
  "approle/" ∈ auth_backends (server (world_after (enable_approle_auth c w))) ∧
  ("approle/" ∈ auth_backends (server w) →
     effects (enable_approle_auth c w)
       = [Request (token c) ListAuthBackends Answered] ∧
     server (world_after (enable_approle_auth c w)) = server w) ∧
  ("approle/" ∉ auth_backends (server w) →
     effects (enable_approle_auth c w)
       = [Request (token c) ListAuthBackends Answered;
          Request (token c) (EnableAuthBackend "approle") Answered]).
Proof.
  intros Hw [Hi Hs].
  unfold enable_approle_auth, bind, client_list_auth_backends,
    client_enable_auth_backend, request.
  rewrite (Hw (sent w)). unfold srv_list_auth_backends, srv_enable_auth_backend, guarded.
  rewrite Hi, Hs. cbn [negb returned world_after effects preceded].
  destruct (bool_decide ("approle/" ∈ auth_backends (server w))) eqn:Hin.
  - apply bool_decide_eq_true_1 in Hin.
    cbn [negb ret returned world_after effects preceded app server after_request].
    repeat split; try done.
  - apply bool_decide_eq_false_1 in Hin. cbn [negb].
    cbn [wire sent server after_request]. rewrite (Hw (S (sent w))).
    rewrite Hi, Hs. cbn [negb].
    change ("approle" +:+ "/") with "approle/".
    rewrite (bool_decide_eq_false_2 _ Hin).
    cbn [returned world_after effects preceded app server after_request
         auth_backends].
    repeat split; try done. apply elem_of_cons. by left.
Qed.

Lemma enable_approle_auth_ensures_witness :
  returned
    (enable_approle_auth (mkClient VAULT_LOCALHOST_URL (Some "s.root"))
       (world_of true ∅ online ready_server)) = Ok tt.
Proof.
  apply (enable_approle_auth_ensures
           (mkClient VAULT_LOCALHOST_URL (Some "s.root"))
           (world_of true ∅ online ready_server)).
  - intros n. reflexivity.
  - split; reflexivity.
Defined.

(** One request on a server that answers it. *)
Lemma request_step {A} tok call (h : Handler A) w a s :
  answers w →
  h (server w) = (inr a, s) →
  returned (request tok call h w) = Ok a ∧
  server (world_after (request tok call h w)) = s ∧
  env_kept w (world_after (request tok call h w)) ∧
  effects (request tok call h w) = [Request tok call Answered].
Proof.
  intros Hw Hh. unfold request. rewrite (Hw (sent w)), Hh.
  repeat split; try done.
Qed.

Lemma guarded_operational {A} (h : Handler A) s :
  operational s → guarded h s = h s.
Proof. intros [Hi Hs]. unfold guarded. by rewrite Hi, Hs. Qed.

Lemma answers_env_kept w w' : env_kept w w' → answers w → answers w'.
Proof. intros (_ & _ & _ & _ & _ & Hwire) Hw n. rewrite Hwire. apply Hw. Qed.

(** Composition of two steps that return. *)
Lemma bind_step {A B} (m : Hook A) (f : A → Hook B) w a b s1 s2 e1 e2 :
  returned (m w) = Ok a →
  server (world_after (m w)) = s1 →
  env_kept w (world_after (m w)) →
  effects (m w) = e1 →
  returned (f a (world_after (m w))) = Ok b →
  server (world_after (f a (world_after (m w)))) = s2 →
  env_kept (world_after (m w)) (world_after (f a (world_after (m w)))) →
  effects (f a (world_after (m w))) = e2 →
  returned (bind m f w) = Ok b ∧
  server (world_after (bind m f w)) = s2 ∧
  env_kept w (world_after (bind m f w)) ∧
  effects (bind m f w) = (e1 ++ e2)%list.
Proof.
  intros Hr _ Hk He Hr2 Hs2 Hk2 He2. rewrite (bind_ok _ _ _ _ Hr).
  cbn [preceded returned world_after effects]. rewrite He, He2.
  split; [exact Hr2|]. split; [exact Hs2|]. split; [|reflexivity].
  eapply env_kept_trans; [exact Hk|exact Hk2].
Qed.

Lemma enable_approle_auth_run c w :
  answers w →
  operational (server w) →
  returned (enable_approle_auth c w) = Ok tt ∧
  server (world_after (enable_approle_auth c w))
    = (if bool_decide ("approle/" ∈ auth_backends (server w)) then server w
       else mkServer (initialized (server w)) (sealed (server w))
              (fresh_root_token (server w)) (fresh_keys (server w))
              (key_shares (server w)) (threshold (server w))
              (progress (server w)) ("approle/" :: auth_backends (server w))
              (policy_store (server w)) (role_store (server w))
              (role_id_of (server w)) (secret_backends (server w))) ∧
  env_kept w (world_after (enable_approle_auth c w)) ∧
  effects (enable_approle_auth c w)
    = (Request (token c) ListAuthBackends Answered
       :: (if bool_decide ("approle/" ∈ auth_backends (server w)) then []
           else [Request (token c) (EnableAuthBackend "approle") Answered]))%list.
Proof.
  intros Hw Hop. unfold enable_approle_auth.
  destruct (request_step (token c) ListAuthBackends srv_list_auth_backends w
              (auth_backends (server w)) (server w) Hw)
    as (Hr & Hs & Hk & He).
  { unfold srv_list_auth_backends. by rewrite guarded_operational. }
  fold (client_list_auth_backends c) in Hr, Hs, Hk, He.
  destruct (bool_decide ("approle/" ∈ auth_backends (server w))) eqn:Hin.
  - rewrite (bind_ok _ _ _ _ Hr). rewrite Hin.
    cbn [negb ret preceded returned world_after effects].
    rewrite He. split; [reflexivity|]. split; [exact Hs|].
    split; [exact Hk|reflexivity].
  - set (w1 := world_after (client_list_auth_backends c w)) in *.
    eapply (bind_step _ _ w _ tt _ _ _ _ Hr Hs Hk He); rewrite Hin; cbn [negb].
    + eapply (request_step (token c) (EnableAuthBackend "approle")
                (srv_enable_auth_backend "approle") w1).
      * by apply (answers_env_kept w).
      * unfold srv_enable_auth_backend. rewrite guarded_operational
          by (by rewrite Hs).
        rewrite Hs. change ("approle" +:+ "/") with "approle/".
        rewrite Hin. reflexivity.
    + eapply (request_step (token c) (EnableAuthBackend "approle")
                (srv_enable_auth_backend "approle") w1).
      * by apply (answers_env_kept w).
      * unfold srv_enable_auth_backend. rewrite guarded_operational
          by (by rewrite Hs).
        rewrite Hs. change ("approle" +:+ "/") with "approle/".
        rewrite Hin. reflexivity.
    + apply request_env_kept.
    + eapply (request_step (token c) (EnableAuthBackend "approle")
                (srv_enable_auth_backend "approle") w1).
      * by apply (answers_env_kept w).
      * unfold srv_enable_auth_backend. rewrite guarded_operational
          by (by rewrite Hs).
        rewrite Hs. change ("approle" +:+ "/") with "approle/".
        rewrite Hin. reflexivity.
Qed.

(** [create_role] followed by [get_role_id], the body shared by
    [create_local_charm_access_role] and [configure_approle]. *)
Lemma create_role_get_id_run c name spec w :
  answers w →
  operational (server w) →
  returned ((client_create_role c name spec ;; client_get_role_id c name) w)
    = Ok (role_id_of (server w) name) ∧
  server (world_after
            ((client_create_role c name spec ;; client_get_role_id c name) w))
    = with_role name spec (server w) ∧
  env_kept w
    (world_after
       ((client_create_role c name spec ;; client_get_role_id c name) w)) ∧
  effects ((client_create_role c name spec ;; client_get_role_id c name) w)
    = [Request (token c) (CreateRole name spec) Answered;
       Request (token c) (GetRoleId name) Answered].
Proof.
  intros Hw Hop.
  destruct (request_step (token c) (CreateRole name spec)
              (srv_create_role name spec) w tt
              (with_role name spec (server w)) Hw)
    as (Hr & Hs & Hk & He).
  { unfold srv_create_role. by rewrite guarded_operational. }
  fold (client_create_role c name spec) in Hr, Hs, Hk, He.
  set (w1 := world_after (client_create_role c name spec w)) in *.
  assert (Hw1 : answers w1) by (by apply (answers_env_kept w)).
  destruct (request_step (token c) (GetRoleId name) (srv_get_role_id name) w1
              (role_id_of (server w) name) (with_role name spec (server w)) Hw1)
    as (Hr2 & Hs2 & Hk2 & He2).
  { unfold srv_get_role_id. rewrite guarded_operational
      by (rewrite Hs; apply Hop).
    rewrite Hs. cbn [with_role role_store role_id_of].
    by rewrite lookup_insert_eq. }
  fold (client_get_role_id c name) in Hr2, Hs2, Hk2, He2.
  exact (bind_step (client_create_role c name spec)
           (λ _, client_get_role_id c name) w tt _ _ _ _ _
           Hr Hs Hk He Hr2 Hs2 Hk2 He2).
Qed.

(** [setup_charm_vault_access] on an operational server that answers. *)
Lemma setup_charm_vault_access_run tok w :
  answers w →
  operational (server w) →
  returned (setup_charm_vault_access tok w)
    = Ok (role_id_of (server w) CHARM_ACCESS_ROLE) ∧
  server (world_after (setup_charm_vault_access tok w)) = provisioned (server w) ∧
  env_kept w (world_after (setup_charm_vault_access tok w)) ∧
  effects (setup_charm_vault_access tok w)
    = (Request (resolved_token tok w) ListAuthBackends Answered
       :: (if bool_decide ("approle/" ∈ auth_backends (server w)) then []
           else [Request (resolved_token tok w) (EnableAuthBackend "approle")
                   Answered])
       ++ [Request (resolved_token tok w)
             (SetPolicy CHARM_POLICY_NAME CHARM_POLICY) Answered;
           Request (resolved_token tok w)
             (CreateRole CHARM_ACCESS_ROLE charm_access_role_spec) Answered;
           Request (resolved_token tok w) (GetRoleId CHARM_ACCESS_ROLE)
             Answered])%list.
Proof.
  intros Hw Hop.
  set (c := mkClient VAULT_LOCALHOST_URL (resolved_token tok w)).
  assert (Hbody : setup_charm_vault_access tok w
    = (enable_approle_auth c ;;
       client_set_policy c CHARM_POLICY_NAME CHARM_POLICY ;;
       create_local_charm_access_role c [CHARM_POLICY_NAME]) w).
  { unfold setup_charm_vault_access, resolved_token in *.
    destruct (truthy tok); cbn [negb]; unfold bind at 1;
      cbn [ret leader_get returned world_after effects];
      by rewrite preceded_nil. }
  rewrite Hbody. clear Hbody.
  (* the three steps, last first *)
  destruct (enable_approle_auth_run c w Hw Hop) as (Ha & Hsa & Hka & Hea).
  set (w1 := world_after (enable_approle_auth c w)) in *.
  set (s1 := server w1) in *.
  assert (Hw1 : answers w1) by (by apply (answers_env_kept w)).
  assert (Hop1 : operational s1).
  { rewrite Hsa. destruct (bool_decide _); [done|]. destruct Hop. by split. }
  destruct (request_step (token c) (SetPolicy CHARM_POLICY_NAME CHARM_POLICY)
              (srv_set_policy CHARM_POLICY_NAME CHARM_POLICY) w1 tt
              (with_policy CHARM_POLICY_NAME CHARM_POLICY s1) Hw1)
    as (Hb & Hsb & Hkb & Heb).
  { unfold srv_set_policy. by rewrite guarded_operational. }
  fold (client_set_policy c CHARM_POLICY_NAME CHARM_POLICY) in Hb, Hsb, Hkb, Heb.
  set (w2 := world_after (client_set_policy c CHARM_POLICY_NAME CHARM_POLICY w1)) in *.
  assert (Hw2 : answers w2) by (by apply (answers_env_kept w1)).
  assert (Hop2 : operational (server w2)).
  { rewrite Hsb. destruct Hop1. by split. }
  destruct (create_role_get_id_run c CHARM_ACCESS_ROLE charm_access_role_spec
              w2 Hw2 Hop2) as (Hc & Hsc & Hkc & Hec).
  pose proof (bind_step (client_set_policy c CHARM_POLICY_NAME CHARM_POLICY)
                (λ _, create_local_charm_access_role c [CHARM_POLICY_NAME])
                w1 tt _ _ _ _ _ Hb Hsb Hkb Heb Hc Hsc Hkc Hec)
    as (Hbc & Hsbc & Hkbc & Hebc).
  pose proof (bind_step (enable_approle_auth c)
                (λ _, client_set_policy c CHARM_POLICY_NAME CHARM_POLICY ;;
                      create_local_charm_access_role c [CHARM_POLICY_NAME])
                w tt _ _ _ _ _ Ha Hsa Hka Hea Hbc Hsbc Hkbc Hebc)
    as (Hall & Hsall & Hkall & Heall).
  split; [|split; [|split; [exact Hkall|]]].
  - rewrite Hall, Hsb. subst s1. rewrite Hsa.
    by destruct (bool_decide _).
  - rewrite Hsall, Hsb. subst s1. rewrite Hsa. unfold provisioned.
    by destruct (bool_decide _).
  - rewrite Heall. subst c. cbn [token]. by destruct (bool_decide _).
Qed.

Lemma provisioned_idem s : provisioned (provisioned s) = provisioned s.
Proof.
  unfold provisioned. cbn [auth_backends policy_store role_store initialized
    sealed fresh_root_token fresh_keys key_shares threshold progress role_id_of
    secret_backends].
  rewrite !insert_insert_eq.
  destruct (bool_decide ("approle/" ∈ auth_backends s)) eqn:Hin.
  - by rewrite Hin.
  - rewrite bool_decide_eq_true_2; [done|]. apply elem_of_cons. by left.
Qed.

(** X4.  On an operational server that answers, [setup_charm_vault_access]
    returns the id of the role [local-charm-access] and leaves the server
    with the [approle] auth backend enabled, the policy
    [local-charm-policy] set to [CHARM_POLICY], and the role created with
    token TTLs of 60s, no secret id and the loopback CIDR, bound to that
    policy.  Other policies and roles, the mounts and the leader settings
    are left as they were. *)
Theorem setup_charm_vault_access_result (tok : option string) (w : World) :
  answers w →
  operational (server w) →
  returned (setup_charm_vault_access tok w)
    = Ok (role_id_of (server w) CHARM_ACCESS_ROLE) ∧
  server (world_after (setup_charm_vault_access tok w)) = provisioned (server w) ∧
  leader_db (world_after (setup_charm_vault_access tok w)) = leader_db w ∧
  "approle/" ∈ auth_backends (provisioned (server w)) ∧
  policy_store (provisioned (server w)) !! CHARM_POLICY_NAME = Some CHARM_POLICY ∧
  role_store (provisioned (server w)) !! CHARM_ACCESS_ROLE
    = Some (mkRoleSpec "60s" "60s" [CHARM_POLICY_NAME] "false" "127.0.0.1/32") ∧
  (∀ n, n ≠ CHARM_POLICY_NAME →
     policy_store (provisioned (server w)) !! n = policy_store (server w) !! n) ∧
  (∀ n, n ≠ CHARM_ACCESS_ROLE →
     role_store (provisioned (server w)) !! n = role_store (server w) !! n) ∧
  secret_backends (provisioned (server w)) = secret_backends (server w).
Proof.
  intros Hw Hop.
  destruct (setup_charm_vault_access_run tok w Hw Hop)
    as (Hr & Hs & (_ & _ & _ & _ & Hdb & _) & _).
  split; [exact Hr|]. split; [exact Hs|]. split; [exact Hdb|].
  unfold provisioned.
  cbn [auth_backends policy_store role_store secret_backends].
  split.
  { destruct (bool_decide ("approle/" ∈ auth_backends (server w))) eqn:Hin.
    - by apply bool_decide_eq_true_1 in Hin.
    - apply elem_of_cons. by left. }
  split; [apply lookup_insert_eq|]. split; [apply lookup_insert_eq|].
  split; [intros n Hn; by apply lookup_insert_ne|].
  split; [intros n Hn; by apply lookup_insert_ne|]. reflexivity.
Qed.

Lemma setup_charm_vault_access_result_witness :
  returned (setup_charm_vault_access (Some "s.root")
              (world_of true ∅ online ready_server))
    = Ok "id-local-charm-access".
Proof.
  apply (setup_charm_vault_access_result (Some "s.root")
           (world_of true ∅ online ready_server)).
  - intros n. reflexivity.
  - split; reflexivity.
Defined.

(** X5.  [setup_charm_vault_access] is idempotent: on an operational
    server that answers, a second call right after the first returns the
    same role id, leaves the server exactly as the first call left it, and
    does not enable the auth backend again. *)
Theorem setup_charm_vault_access_idempotent (tok : option string)
    (w w1 : World) :
  answers w →
  operational (server w) →
  w1 = world_after (setup_charm_vault_access tok w) →
  returned (setup_charm_vault_access tok w1)
    = returned (setup_charm_vault_access tok w) ∧
  server (world_after (setup_charm_vault_access tok w1)) = server w1 ∧
  Forall (λ e, ∀ t o, e ≠ Request t (EnableAuthBackend "approle") o)
    (effects (setup_charm_vault_access tok w1)).
Proof.
  intros Hw Hop ->.
  destruct (setup_charm_vault_access_run tok w Hw Hop) as (Hr & Hs & Hk & _).
  set (w1 := world_after (setup_charm_vault_access tok w)) in *.
  assert (Hw1 : answers w1) by (by apply (answers_env_kept w)).
  assert (Hop1 : operational (server w1)).
  { rewrite Hs. by apply provisioned_operational. }
  destruct (setup_charm_vault_access_run tok w1 Hw1 Hop1) as (Hr1 & Hs1 & _ & He1).
  split; [by rewrite Hr1, Hr, Hs|].
  split; [by rewrite Hs1, Hs, provisioned_idem|].
  rewrite He1.
  assert (Hin : bool_decide ("approle/" ∈ auth_backends (server w1)) = true).
  { rewrite Hs. apply bool_decide_eq_true_2. unfold provisioned.
    cbn [auth_backends].
    destruct (bool_decide ("approle/" ∈ auth_backends (server w))) eqn:Hin.
    - by apply bool_decide_eq_true_1 in Hin.
    - apply elem_of_cons. by left. }
  rewrite Hin. repeat constructor; intros t o; discriminate.
Qed.

Lemma setup_charm_vault_access_idempotent_witness :
  returned
    (setup_charm_vault_access None
       (world_after (setup_charm_vault_access None
                       (world_of true ∅ online ready_server))))
    = returned (setup_charm_vault_access None
                  (world_of true ∅ online ready_server)).
Proof.
  apply (setup_charm_vault_access_idempotent None
           (world_of true ∅ online ready_server) _).
  - intros n. reflexivity.
  - split; reflexivity.
  - reflexivity.
Defined.

(** ** Stopping at the first failure *)

Lemma fail_fast_request {A} tok call (h : Handler A) w :
  fail_fast (request tok call h w).
Proof.
  unfold fail_fast, request. destruct (wire w (sent w)) as [msg|].
  - cbn [returned effects]. by exists [], (Request tok call (Lost msg)).
  - destruct (h (server w)) as [[e|a] s]; cbn [returned effects].
    + by exists [], (Request tok call (Refused e)).
    + by repeat constructor.
Qed.

Lemma fail_fast_quiet {A} (m : Hook A) w a :
  returned (m w) = Ok a → effects (m w) = [] → fail_fast (m w).
Proof. intros Hr He. unfold fail_fast. rewrite Hr, He. constructor. Qed.

Lemma fail_fast_bind {A B} (m : Hook A) (f : A → Hook B) w :
  fail_fast (m w) →
  (∀ a, returned (m w) = Ok a → fail_fast (f a (world_after (m w)))) →
  fail_fast (bind m f w).
Proof.
  unfold fail_fast at 1. intros Hm Hf. unfold bind.
  destruct (returned (m w)) as [a|e] eqn:Hr.
  - specialize (Hf a eq_refl). unfold fail_fast in *.
    cbn [preceded returned effects].
    destruct (returned (f a (world_after (m w)))) as [b|e].
    + apply Forall_app. by split.
    + destruct Hf as (pre & last & -> & Hpre & Hlast).
      exists (effects (m w) ++ pre)%list, last.
      split; [by rewrite app_assoc|]. split; [|done].
      apply Forall_app. by split.
  - unfold fail_fast. cbn [returned effects]. exact Hm.
Qed.

(** X6.  [setup_charm_vault_access] stops at the first request that
    fails: when it raises, the exception is the one of the last request it
    sent, every request before that one was answered, and nothing is sent
    after it; when it returns, every request was answered. *)
Theorem setup_charm_vault_access_fail_fast (tok : option string) (w : World) :
  fail_fast (setup_charm_vault_access tok w).
Proof.
  unfold setup_charm_vault_access. apply fail_fast_bind.
  { destruct (negb (truthy tok)); by eapply fail_fast_quiet. }
  intros t _. apply fail_fast_bind.
  { unfold enable_approle_auth. apply fail_fast_bind;
      [apply fail_fast_request|].
    intros backends _. destruct (negb _); [apply fail_fast_request|].
    by eapply fail_fast_quiet. }
  intros _ _. apply fail_fast_bind; [apply fail_fast_request|].
  intros _ _. unfold create_local_charm_access_role.
  apply fail_fast_bind; [apply fail_fast_request|].
  intros _ _. apply fail_fast_request.
Qed.

(** ** The health probe, in every world *)

Lemma retry_from_length {A} tok call (h : Handler A) left reraise : ∀ w,
  (1 ≤ length (effects (retry_from left reraise (request tok call h) w))
     ≤ S left)%nat.
Proof.
  induction left as [|k IH]; intros w; simpl; unfold handle;
    destruct (request_effects tok call h w) as [o Ho];
    destruct (returned (request tok call h w)) as [a|e].
  - rewrite Ho. simpl. lia.
  - cbn [preceded effects]. rewrite Ho. destruct reraise; simpl; lia.
  - rewrite Ho. simpl. lia.
  - cbn [preceded effects]. rewrite Ho. specialize (IH (world_after (request tok call h w))).
    rewrite length_app. simpl. lia.
Qed.

(** After [k] lost attempts, with attempts to spare, the first request
    that is delivered ends the loop with its answer. *)
Lemma retry_from_recovers {A} tok call (h : Handler A) reraise a k :
  ∀ left w,
  (k ≤ left)%nat →
  (∀ i, (i < k)%nat → is_Some (wire w (sent w + i)%nat)) →
  wire w (sent w + k)%nat = None →
  h (server w) = (inr a, server w) →
  returned (retry_from left reraise (request tok call h) w) = Ok a ∧
  server (world_after (retry_from left reraise (request tok call h) w))
    = server w ∧
  ∃ lost,
    effects (retry_from left reraise (request tok call h) w)
      = (lost ++ [Request tok call Answered])%list ∧
    length lost = k ∧
    Forall (λ e, ∃ msg, e = Request tok call (Lost msg)) lost.
Proof.
  induction k as [|k IH]; intros left w Hle Hlost Hok Hh.
  - rewrite Nat.add_0_r in Hok.
    assert (Hreq : request tok call h w
      = mkRun (Ok a) (after_request (server w) w) [Request tok call Answered]).
    { unfold request. by rewrite Hok, Hh. }
    destruct left; simpl; unfold handle; rewrite Hreq;
      cbn [returned world_after effects];
      (split; [done|]; split; [done|]; by exists []).
  - destruct left as [|left]; [lia|].
    destruct (Hlost 0%nat) as [msg Hmsg]; [lia|]. rewrite Nat.add_0_r in Hmsg.
    simpl retry_from. unfold handle.
    rewrite (request_lost tok call h w msg Hmsg).
    cbn [returned world_after effects preceded].
    destruct (IH left (after_request (server w) w)) as (Hr & Hs & lost & He & Hlen & Hall).
    + lia.
    + intros i Hi. cbn [wire sent after_request].
      replace (S (sent w) + i)%nat with (sent w + S i)%nat by lia.
      apply Hlost. lia.
    + cbn [wire sent after_request].
      by replace (S (sent w) + k)%nat with (sent w + S k)%nat by lia.
    + exact Hh.
    + split; [exact Hr|]. split; [exact Hs|].
      exists (Request tok call (Lost msg) :: lost). rewrite He.
      split; [reflexivity|]. split; [simpl; by rewrite Hlen|].
      constructor; [by eexists|exact Hall].
Qed.

(** X7.  In every world [get_vault_health] sends at least one and never
    more than ten requests; each is the GET of the local health URL,
    without a token; and the probe leaves the server and the leader
    settings as they were, whether it returns or raises. *)
Theorem get_vault_health_bounded (w : World) :
  (1 ≤ length (effects (get_vault_health w)) ≤ 10)%nat ∧
  Forall (λ e, ∃ outcome, e = health_request outcome)
    (effects (get_vault_health w)) ∧
  server (world_after (get_vault_health w)) = server w ∧
  leader_db (world_after (get_vault_health w)) = leader_db w.
Proof.
  split; [apply retry_from_length|]. split; [apply retry_from_effects|].
  split; [by apply retry_from_server|].
  by destruct (get_vault_health_env_kept w) as (_ & _ & _ & _ & Hdb & _).
Qed.

(** X8.  When the first [k] requests of the probe are lost, [k] below ten,
    and the next one is delivered, [get_vault_health] returns the server's
    [initialized] and [sealed] flags after exactly [k + 1] requests: it
    retries transport failures and stops at the first answer. *)
Theorem get_vault_health_recovers (w : World) (k : nat) :
  (k < 10)%nat →
  (∀ i, (i < k)%nat → is_Some (wire w (sent w + i)%nat)) →
  wire w (sent w + k)%nat = None →
  returned (get_vault_health w)
    = Ok (mkHealth (initialized (server w)) (sealed (server w))) ∧
  ∃ lost,
    effects (get_vault_health w) = (lost ++ [health_request Answered])%list ∧
    length lost = k ∧
    Forall (λ e, ∃ msg, e = health_request (Lost msg)) lost.
Proof.
  intros Hk Hlost Hok.
  destruct (retry_from_recovers None
              (HttpGet (VAULT_HEALTH_URL VAULT_LOCALHOST_URL)) srv_health true
              (mkHealth (initialized (server w)) (sealed (server w)))
              k 9 w) as (Hr & _ & He); [lia|done|done|done|].
  split; [exact Hr|exact He].
Qed.

Lemma get_vault_health_recovers_witness :
  returned (get_vault_health (world_of false ∅ (flaky 3) sealed_server))
    = Ok (mkHealth true true).
Proof.
  apply (get_vault_health_recovers
           (world_of false ∅ (flaky 3) sealed_server) 3).
  - lia.
  - intros i Hi. cbn [world_of sent wire]. unfold flaky.
    destruct (Nat.ltb_spec (0 + i) 3) as [_|Hge]; [by eexists|cbn in Hge; lia].
  - reflexivity.
Defined.

(** ** The restart gate, in every world *)

(** [can_restart], case by case. *)
Lemma can_restart_run w :
  can_restart w =
    if negb (vault_running w)
    then mkRun (Ok true) w [Log "Safe to restart: True"]
    else if unsafe_flag w
    then mkRun (Ok true) w [Log "Safe to restart: True"]
    else
      match wire w (sent w) with
      | Some msg =>
          mkRun (Raised (ConnectionError msg)) (after_request (server w) w)
            [Request None IsInitialized (Lost msg)]
      | None =>
          if negb (initialized (server w))
          then mkRun (Ok true) (after_request (server w) w)
                 [Request None IsInitialized Answered;
                  Log "Safe to restart: True"]
          else
            match wire w (S (sent w)) with
            | Some msg =>
                mkRun (Raised (ConnectionError msg))
                  (after_request (server w) (after_request (server w) w))
                  [Request None IsInitialized Answered;
                   Request None IsSealed (Lost msg)]
            | None =>
                mkRun (Ok (sealed (server w)))
                  (after_request (server w) (after_request (server w) w))
                  [Request None IsInitialized Answered;
                   Request None IsSealed Answered;
                   Log ("Safe to restart: " +:+ format_bool (sealed (server w)))]
            end
      end.
Proof.
  unfold can_restart, unsafe_flag.
  unfold bind at 1. cbn [service_running returned world_after effects].
  destruct (vault_running w); [|reflexivity]. cbn [negb].
  unfold bind, config, client_is_initialized, client_is_sealed, request, log, emit.
  cbn [returned world_after effects preceded].
  destruct (default false (charm_config w !! "totally-unsecure-auto-unlock"));
    [reflexivity|].
  rewrite get_client_localhost. cbn [returned world_after effects preceded token].
  destruct (wire w (sent w)); [reflexivity|]. unfold srv_is_initialized.
  cbn [returned world_after effects preceded].
  destruct (initialized (server w)) eqn:Hi; [|reflexivity]. cbn [negb].
  cbn [sent after_request wire server].
  destruct (wire w (S (sent w))); [reflexivity|].
  unfold srv_is_sealed. rewrite Hi. cbn [returned world_after effects preceded].
  destruct (sealed (server w)); reflexivity.
Qed.

(** X9.  [can_restart] is a query: in every world, returning or raising,
    it leaves the server, the leader settings and the process as they
    were; it sends at most two requests, only [is_initialized] and
    [is_sealed]; and when the process is not running or the unsafe flag is
    set it answers true without contacting the server at all. *)
Theorem can_restart_read_only (w : World) :
  server (world_after (can_restart w)) = server w ∧
  leader_db (world_after (can_restart w)) = leader_db w ∧
  vault_running (world_after (can_restart w)) = vault_running w ∧
  (length (List.filter is_request (effects (can_restart w))) ≤ 2)%nat ∧
  Forall (λ e, is_request e = true →
               ∃ o, e = Request None IsInitialized o ∨ e = Request None IsSealed o)
    (effects (can_restart w)) ∧
  (vault_running w = false ∨ unsafe_flag w = true →
   can_restart w = mkRun (Ok true) w [Log "Safe to restart: True"]).
Proof.
  rewrite can_restart_run.
  assert (Hno : ∀ P : Prop, true = false ∨ false = true → P).
  { by intros P [?|?]. }
  destruct (vault_running w) eqn:Hrun, (unsafe_flag w); cbn [negb];
    try (repeat split; try done; try (simpl; lia); by repeat constructor).
  destruct (wire w (sent w)) as [msg|];
    [|destruct (initialized (server w)); cbn [negb];
      [destruct (wire w (S (sent w))) as [msg|]|]];
    (split; [done|]; split; [done|]; split; [exact Hrun|];
     split; [simpl; lia|]; split; [|apply Hno]);
    repeat constructor;
    first [done | intros _; eexists; by left | intros _; eexists; by right].
Qed.

(** X10.  With the server's API answering, [opportunistic_restart]
    returns and its one supervision action follows the restart table: it
    restarts the service unless the process is running, the unsafe flag is
    unset and the server is initialised and unsealed; in that case it
    issues a start, which leaves the running server and its unsealed state
    untouched.  Either way the process is running afterwards. *)
Theorem opportunistic_restart_spares_unsealed (w : World) :
  answers w →
  returned (opportunistic_restart w) = Ok tt ∧
  List.filter is_supervision (effects (opportunistic_restart w))
    = [if restart_table (vault_running w) (unsafe_flag w)
            (initialized (server w)) (sealed (server w))
       then ServiceRestart "vault" else ServiceStart "vault"] ∧
  vault_running (world_after (opportunistic_restart w)) = true ∧
  (restart_table (vault_running w) (unsafe_flag w)
     (initialized (server w)) (sealed (server w)) = false →
   server (world_after (opportunistic_restart w)) = server w).
Proof.
  intros Hw. unfold opportunistic_restart, bind. rewrite can_restart_run.
  unfold restart_table.
  destruct (vault_running w) eqn:Hrun; cbn [negb].
  2: { unfold log, emit, service_restart.
       cbn [returned world_after effects preceded].
       repeat split; try done. }
  destruct (unsafe_flag w).
  { unfold log, emit, service_restart.
    cbn [returned world_after effects preceded]. repeat split; try done. }
  rewrite (Hw (sent w)).
  destruct (initialized (server w)); cbn [negb].
  2: { unfold log, emit, service_restart.
       cbn [returned world_after effects preceded]. repeat split; try done. }
  rewrite (Hw (S (sent w))).
  destruct (sealed (server w));
    unfold log, emit, service_restart, service_start;
    cbn [returned world_after effects preceded vault_running after_request
         with_process server];
    rewrite ?Hrun; repeat split; try done.
Qed.

Lemma opportunistic_restart_spares_unsealed_witness :
  List.filter is_supervision
    (effects (opportunistic_restart (world_of true ∅ online ready_server)))
    = [ServiceStart "vault"].
Proof.
  exact (proj1 (proj2 (opportunistic_restart_spares_unsealed
                         (world_of true ∅ online ready_server)
                         (λ n, eq_refl)))).
Defined.

(** ** The reconciliation pass, further *)

Lemma retry_from_value {A} tok call (h : Handler A) (g : Server → A)
    left reraise : ∀ w a,
  (∀ s, h s = (inr (g s), s)) →
  returned (retry_from left reraise (request tok call h) w) = Ok a →
  a = g (server w).
Proof.
  intros w a Hh. revert w.
  assert (Hreq : ∀ w b, returned (request tok call h w) = Ok b → b = g (server w)).
  { intros w b. unfold request. destruct (wire w (sent w)); [done|].
    rewrite Hh. by intros [= <-]. }
  assert (Hsrv : ∀ w, server (world_after (request tok call h w)) = server w).
  { intros w. unfold request. destruct (wire w (sent w)); [done|].
    by rewrite Hh. }
  induction left as [|k IH]; intros w; simpl; unfold handle;
    destruct (returned (request tok call h w)) as [b|e] eqn:Hr.
  - rewrite Hr. intros [= <-]. by apply Hreq.
  - cbn [preceded returned]. by destruct reraise.
  - rewrite Hr. intros [= <-]. by apply Hreq.
  - cbn [preceded returned]. intros Hk. rewrite <- Hsrv. by apply IH.
Qed.

(** What the probe returns is what the server holds. *)
Lemma get_vault_health_value w h :
  returned (get_vault_health w) = Ok h →
  h = mkHealth (initialized (server w)) (sealed (server w)).
Proof.
  apply (retry_from_value None _ srv_health
           (λ s, mkHealth (initialized s) (sealed s))).
  by intros s.
Qed.

Lemma filter_none (p : Event → bool) l :
  Forall (λ x, p x = false) l → List.filter p l = [].
Proof.
  induction 1 as [|x l Hx _ IH]; [done|]. simpl. by rewrite Hx.
Qed.

(** X11.  On a vault whose process is not running, [prepare_vault]
    defers: it returns at once, its only effect is the log line, and the
    world is left as it was (no request is sent, leadership is not
    queried, nothing is written). *)
Theorem prepare_vault_defers (w : World) :
  vault_running w = false →
  returned (prepare_vault w) = Ok tt ∧
  world_after (prepare_vault w) = w ∧
  effects (prepare_vault w) = [Log "Defering unlock vault not running "].
Proof. intros H. by rewrite (prepare_vault_not_running w H). Qed.

Lemma prepare_vault_defers_witness :
  effects (prepare_vault
             (mkWorld false ∅ [] (λ _, None) "10.0.0.1" (λ _, true) 0 ∅
                online 0 fresh_server))
    = [Log "Defering unlock vault not running "].
Proof.
  exact (proj2 (proj2 (prepare_vault_defers
    (mkWorld false ∅ [] (λ _, None) "10.0.0.1" (λ _, true) 0 ∅
       online 0 fresh_server) eq_refl))).
Defined.

(** X12.  With the process running and a server that loses every
    request, the pass is fatal: [prepare_vault] raises the
    [ConnectionError] of the tenth health request, having sent those ten
    requests and nothing else, without a leadership query and with the
    server and the leader settings untouched. *)
Theorem prepare_vault_unreachable (w : World) (err : nat → string) :
  vault_running w = true →
  (∀ n, wire w n = Some (err n)) →
  returned (prepare_vault w) = Raised (ConnectionError (err (sent w + 9)%nat)) ∧
  effects (prepare_vault w)
    = (λ i, health_request (Lost (err (sent w + i)%nat))) <$> seq 0 10 ∧
  leader_asked (world_after (prepare_vault w)) = leader_asked w ∧
  leader_db (world_after (prepare_vault w)) = leader_db w ∧
  server (world_after (prepare_vault w)) = server w.
Proof.
  intros Hrun Hw.
  destruct (retry_from_all_lost None
              (HttpGet (VAULT_HEALTH_URL VAULT_LOCALHOST_URL)) srv_health err 9
              w Hw) as [Hr He].
  fold (requests_get_json (VAULT_HEALTH_URL VAULT_LOCALHOST_URL)) in Hr, He.
  change (retry_from 9 true
            (requests_get_json (VAULT_HEALTH_URL VAULT_LOCALHOST_URL)) w)
    with (get_vault_health w) in Hr, He.
  pose proof (prepare_vault_bootstrap_run w) as Hb. cbn zeta in Hb.
  rewrite Hr in Hb.
  rewrite (prepare_vault_running w Hrun).
  rewrite (bind_raised _ _ _ (ConnectionError (err (sent w + 9)%nat)))
    by (by rewrite Hb).
  rewrite Hb. cbn [returned world_after effects].
  destruct (get_vault_health_env_kept w) as (_ & _ & _ & Ha & Hdb & _).
  split; [done|]. split; [exact He|]. split; [exact Ha|].
  split; [exact Hdb|]. apply get_vault_health_server.
Qed.

Lemma prepare_vault_unreachable_witness :
  returned (prepare_vault (world_of true ∅ offline fresh_server))
    = Raised (ConnectionError (offline_msg 9)).
Proof.
  exact (proj1 (prepare_vault_unreachable
                  (world_of true ∅ offline fresh_server) offline_msg
                  eq_refl (λ n, eq_refl))).
Defined.

Lemma bind_env_kept {A B} (m : Hook A) (f : A → Hook B) w :
  env_kept w (world_after (m w)) →
  (∀ a, env_kept (world_after (m w)) (world_after (f a (world_after (m w))))) →
  env_kept w (world_after (bind m f w)).
Proof.
  intros Hm Hf. unfold bind. destruct (returned (m w)) as [a|e]; [|exact Hm].
  cbn [preceded world_after]. eapply env_kept_trans; [exact Hm|apply Hf].
Qed.

Lemma setup_charm_vault_access_env_kept tok w :
  env_kept w (world_after (setup_charm_vault_access tok w)).
Proof.
  unfold setup_charm_vault_access. apply bind_env_kept.
  { destruct (negb (truthy tok)); apply env_kept_refl. }
  intros t. apply bind_env_kept.
  { unfold enable_approle_auth. apply bind_env_kept; [apply request_env_kept|].
    intros backends. destruct (negb (bool_decide ("approle/" ∈ backends)));
      [apply request_env_kept|apply env_kept_refl]. }
  intros _. apply bind_env_kept; [apply request_env_kept|].
  intros _. unfold create_local_charm_access_role.
  apply bind_env_kept; [apply request_env_kept|].
  intros _. apply request_env_kept.
Qed.

Lemma prepare_vault_provision_db w :
  leader_db (world_after (prepare_vault_provision w)) = leader_db w.
Proof.
  rewrite prepare_vault_provision_run.
  destruct (leader_oracle w (leader_asked w)); [|reflexivity].
  unfold bind.
  pose proof (setup_charm_vault_access_env_kept None (with_leader_asked w))
    as (_ & _ & _ & _ & Hdb & _).
  by destruct (returned (setup_charm_vault_access None (with_leader_asked w))).
Qed.

Lemma other_settings_kept_refl w w' :
  leader_db w' = leader_db w → other_settings_kept w w'.
Proof. intros H k _ _. by rewrite H. Qed.

Lemma other_settings_kept_trans w1 w2 w3 :
  other_settings_kept w1 w2 → other_settings_kept w2 w3 →
  other_settings_kept w1 w3.
Proof. intros H12 H23 k H1 H2. by rewrite H23, H12. Qed.

Lemma initialize_vault_other_settings shares thresh w :
  other_settings_kept w (world_after (initialize_vault shares thresh w)).
Proof.
  rewrite initialize_vault_run. destruct (wire w (sent w)); [by intros k|].
  destruct (initialized (server w)); [by intros k|].
  intros k H1 H2. cbn [world_after leader_db with_leader_db].
  by rewrite !lookup_insert_ne.
Qed.

Lemma initialize_step_other_settings h w :
  other_settings_kept w (world_after (initialize_step h w)).
Proof.
  rewrite initialize_step_run. destruct (h_initialized h); [by intros k|].
  destruct (leader_oracle w (leader_asked w)); [|by intros k].
  apply (other_settings_kept_trans _ (with_leader_asked w)); [by intros k|].
  apply initialize_vault_other_settings.
Qed.

Lemma prepare_vault_bootstrap_other_settings w :
  other_settings_kept w (world_after (prepare_vault_bootstrap w)).
Proof.
  pose proof (prepare_vault_bootstrap_run w) as Hb. cbn zeta in Hb.
  destruct (get_vault_health_env_kept w) as (_ & _ & _ & _ & Hdb0 & _).
  destruct (returned (get_vault_health w)) as [h|e].
  2: { rewrite Hb. by apply other_settings_kept_refl. }
  set (w0 := world_after (get_vault_health w)) in *.
  pose proof (initialize_step_other_settings h w0) as H1.
  assert (H01 : other_settings_kept w (world_after (initialize_step h w0))).
  { eapply other_settings_kept_trans; [|exact H1].
    by apply other_settings_kept_refl. }
  destruct (returned (initialize_step h w0)) as [[]|e].
  2: { by rewrite Hb. }
  rewrite Hb. cbn [world_after].
  eapply other_settings_kept_trans; [exact H01|].
  apply other_settings_kept_refl.
  by destruct (unseal_step_env_kept h (world_after (initialize_step h w0)))
    as (_ & _ & _ & _ & Hdb & _).
Qed.

(** X13.  A pass writes no leader setting other than [root_token] and
    [keys]: every other setting reads the same after [prepare_vault] as
    before, in every world.  In particular the role id that
    [setup_charm_vault_access] returns is not stored by the pass:
    [get_local_charm_access_role_id] returns after the pass what it
    returned before. *)
Theorem prepare_vault_other_settings (w : World) :
  other_settings_kept w (world_after (prepare_vault w)) ∧
  returned (get_local_charm_access_role_id (world_after (prepare_vault w)))
    = returned (get_local_charm_access_role_id w).
Proof.
  assert (H : other_settings_kept w (world_after (prepare_vault w))).
  { destruct (vault_running w) eqn:Hrun.
    2: { rewrite (prepare_vault_not_running w Hrun). by intros k. }
    rewrite (prepare_vault_running w Hrun).
    pose proof (prepare_vault_bootstrap_other_settings w) as Hb.
    unfold bind. destruct (returned (prepare_vault_bootstrap w)); [|exact Hb].
    cbn [preceded world_after].
    eapply other_settings_kept_trans; [exact Hb|].
    apply other_settings_kept_refl. apply prepare_vault_provision_db. }
  split; [exact H|].
  unfold get_local_charm_access_role_id, leader_get. cbn [returned].
  f_equal. by apply H.
Qed.

(** X14.  A pass sends at most one [initialize] request and makes at most
    one write to the leader settings; and on a server that is initialised
    already it sends no [initialize] request and writes nothing, whoever
    the leader is. *)
Theorem prepare_vault_initializes_once (w : World) :
  (length (List.filter is_initialize_call (effects (prepare_vault w))) ≤ 1)%nat ∧
  (length (List.filter is_leader_write (effects (prepare_vault w))) ≤ 1)%nat ∧
  (initialized (server w) = true →
   List.filter is_initialize_call (effects (prepare_vault w)) = [] ∧
   List.filter is_leader_write (effects (prepare_vault w)) = []).
Proof.
  assert (Hcount : ∀ p : Event → bool,
    (∀ e, is_quiet e = true → p e = false) →
    (∀ e, is_unseal_call e = true → p e = false) →
    (∀ e, is_provisioning e = true → p e = false) →
    (∀ o, p (Request None (Initialize 1 1) o)
          || p (LeaderSet [("root_token", fresh_root_token (server w));
                           ("keys", json_dumps (fresh_keys (server w)))])
          = true →
          p (Request None (Initialize 1 1) o)
          && p (LeaderSet [("root_token", fresh_root_token (server w));
                           ("keys", json_dumps (fresh_keys (server w)))])
          = false) →
    (length (List.filter p (effects (prepare_vault w))) ≤ 1)%nat).
  { intros p Hq Hu Hp Hone.
    destruct (prepare_vault_shape w)
      as (hs & ini & us & ps & -> & Hhs & Hini & Hus & Hps & _).
    rewrite !List.filter_app.
    rewrite (filter_none p hs), (filter_none p us), (filter_none p ps);
      try (eapply Forall_impl; [eassumption|]; simpl; by auto).
    cbn [app]. rewrite !app_nil_r.
    destruct Hini as [->|[(o & _ & -> & _)| ->]]; cbn [List.filter].
    - simpl. lia.
    - destruct (p (Request None (Initialize 1 1) o)); simpl; lia.
    - specialize (Hone Answered).
      destruct (p (Request None (Initialize 1 1) Answered)),
        (p (LeaderSet _)); simpl in *; try lia;
        by specialize (Hone eq_refl). }
  split; [apply Hcount; try by_class; by intros o|].
  split; [apply Hcount; try by_class; by intros o|].
  intros Hinit.
  assert (Hnone : Forall (λ e, is_initialize_call e = false ∧
                               is_leader_write e = false)
                    (effects (prepare_vault w))).
  { destruct (vault_running w) eqn:Hrun.
    2: { rewrite (prepare_vault_not_running w Hrun). by repeat constructor. }
    rewrite (prepare_vault_running w Hrun).
    pose proof (prepare_vault_bootstrap_run w) as Hb. cbn zeta in Hb.
    pose proof (get_vault_health_effects w) as Hhs.
    apply (Forall_impl _ (λ e, is_initialize_call e = false ∧
                               is_leader_write e = false)) in Hhs.
    2: { intros [| | | |? [] ?]; simpl; by intros. }
    pose proof (get_vault_health_value w) as Hval.
    destruct (returned (get_vault_health w)) as [h|e].
    2: { rewrite (bind_raised _ _ _ e) by (by rewrite Hb). by rewrite Hb. }
    set (w0 := world_after (get_vault_health w)) in *.
    destruct (initialize_step_skipped h w0) as (Hr1 & He1 & _).
    { left. rewrite (Hval h eq_refl). exact Hinit. }
    rewrite Hr1, He1 in Hb.
    pose proof (unseal_step_effects h (world_after (initialize_step h w0))) as Hus.
    apply (Forall_impl _ (λ e, is_initialize_call e = false ∧
                               is_leader_write e = false)) in Hus.
    2: { intros [| | | |? [] ?]; simpl; by intros. }
    destruct (returned (unseal_step h (world_after (initialize_step h w0))))
      as [[]|e].
    - rewrite (bind_ok _ _ _ h) by (by rewrite Hb).
      rewrite Hb. cbn [preceded effects world_after app].
      rewrite !Forall_app. split; [by split|].
      eapply Forall_impl; [apply prepare_vault_provision_effects|].
      intros [| | | |? [] ?]; simpl; by intros.
    - rewrite (bind_raised _ _ _ e) by (by rewrite Hb).
      rewrite Hb. cbn [effects app]. rewrite Forall_app. by split. }
  split; apply filter_none; (eapply Forall_impl; [exact Hnone|]); by intros e [? ?].
Qed.

Lemma prepare_vault_initializes_once_witness :
  List.filter is_initialize_call
    (effects (prepare_vault (world_of true ∅ online ready_server))) = [].
Proof.
  exact (proj1 (proj2 (proj2 (prepare_vault_initializes_once
                                (world_of true ∅ online ready_server)))
                  eq_refl)).
Defined.

(** ** Initialising and unsealing *)

(** X15.  [initialize_vault] publishes secrets only after the server
    answered [initialize].  Its first effect is always the [initialize]
    request.  When that request fails (it is lost, or refused by a server
    that is initialised already), the call raises that failure at once:
    the request is its one effect, nothing is written to the leader
    settings and the server is as before.  When the call returns, the
    settings hold the root token under [root_token] and, under [keys], a
    JSON document that [json.loads] decodes to the keys the server handed
    out; every other setting is untouched and the server is initialised
    and sealed. *)
Theorem initialize_vault_outcomes (shares thresh : Z) (w : World) :
  (∃ outcome rest,
     effects (initialize_vault shares thresh w)
       = Request None (Initialize shares thresh) outcome :: rest ∧
     (outcome ≠ Answered →
        rest = [] ∧
        (∃ exn,
           returned (initialize_vault shares thresh w) = Raised exn ∧
           failure_of (Request None (Initialize shares thresh) outcome)
             = Some exn) ∧
        leader_db (world_after (initialize_vault shares thresh w))
          = leader_db w ∧
        server (world_after (initialize_vault shares thresh w)) = server w)) ∧
  (returned (initialize_vault shares thresh w) = Ok tt →
     initialized (server w) = false ∧
     leader_db (world_after (initialize_vault shares thresh w)) !! "root_token"
       = Some (fresh_root_token (server w)) ∧
     (leader_db (world_after (initialize_vault shares thresh w)) !! "keys"
        ≫= json_loads) = Some (fresh_keys (server w)) ∧
     other_settings_kept w (world_after (initialize_vault shares thresh w)) ∧
     initialized (server (world_after (initialize_vault shares thresh w))) = true ∧
     sealed (server (world_after (initialize_vault shares thresh w))) = true).
Proof.
  pose proof (initialize_vault_other_settings shares thresh w) as Hother.
  revert Hother. rewrite initialize_vault_run.
  destruct (wire w (sent w)) as [msg|].
  { intros _. split; [|done]. exists (Lost msg), []. split; [done|].
    intros _. split; [done|]. split; [by eexists|]. done. }
  destruct (initialized (server w)).
  { intros _. split; [|done]. exists (Refused AlreadyInitialized), [].
    split; [done|]. intros _. split; [done|]. split; [by eexists|]. done. }
  intros Hother. split.
  { eexists Answered, _. split; [reflexivity|]. by intros []. }
  intros _.
  cbn [world_after leader_db with_leader_db server after_request initialized
       sealed].
  split; [done|]. split; [by rewrite lookup_insert_ne, lookup_insert_eq|].
  split; [|split; [exact Hother|done]].
  rewrite lookup_insert_eq. cbn. apply json_loads_dumps.
Qed.

Lemma initialize_vault_outcomes_witness :
  leader_db (world_after (initialize_vault 1 1
                            (world_of true ∅ online fresh_server)))
    !! "root_token" = Some "s.root".
Proof.
  exact (proj1 (proj2 (proj2 (initialize_vault_outcomes 1 1
                                (world_of true ∅ online fresh_server))
                         eq_refl))).
Defined.

(** The server on a key that is one of its shares. *)
Lemma srv_unseal_valid key s :
  initialized s = true →
  key ∈ key_shares s →
  ∃ s', srv_unseal key s = (inr tt, s') ∧
        initialized s' = true ∧ key_shares s' = key_shares s ∧
        threshold s' = threshold s ∧
        (sealed s = false → sealed s' = false) ∧
        (threshold s ≤ 1 → sealed s' = false).
Proof.
  intros Hi Hin. unfold srv_unseal. rewrite Hi. cbn [negb].
  destruct (sealed s) eqn:Hs; cbn [negb].
  2: { exists s. repeat split; try done. }
  rewrite (bool_decide_eq_true_2 _ Hin). cbn [negb].
  destruct (bool_decide (key ∈ progress s)) eqn:Hp.
  - destruct (threshold s <=? Z.of_nat (length (progress s))) eqn:Ht.
    + eexists. repeat split; try done.
    + eexists. repeat split; try done. intros Hle.
      apply bool_decide_eq_true_1 in Hp. apply Z.leb_gt in Ht.
      destruct (progress s); [by apply elem_of_nil in Hp|]. simpl in Ht. lia.
  - destruct (threshold s <=? Z.of_nat (length (key :: progress s))) eqn:Ht.
    + eexists. repeat split; try done.
    + eexists. repeat split; try done. intros Hle.
      apply Z.leb_gt in Ht. simpl in Ht. lia.
Qed.

(** Submitting keys that are all shares of the server, on a transport
    that delivers: every request is answered. *)
Lemma for_each_unseal_valid c ks : ∀ w,
  answers w →
  initialized (server w) = true →
  Forall (λ k, k ∈ key_shares (server w)) ks →
  returned (for_each ks (λ key, client_unseal c key) w) = Ok tt ∧
  effects (for_each ks (λ key, client_unseal c key) w)
    = (λ k, Request (token c) (Unseal k) Answered) <$> ks ∧
  (sealed (server w) = false ∨ (threshold (server w) ≤ 1 ∧ ks ≠ []) →
   sealed (server (world_after (for_each ks (λ key, client_unseal c key) w)))
     = false).
Proof.
  induction ks as [|k ks IH]; intros w Hw Hi Hks.
  - repeat split; try done. by intros [?|[_ ?]].
  - apply Forall_cons in Hks as [Hk Hks].
    destruct (srv_unseal_valid k (server w) Hi Hk)
      as (s' & Hsrv & Hi' & Hshares & Hth & Hkeep & Hopen).
    destruct (request_step (token c) (Unseal k) (srv_unseal k) w tt s' Hw Hsrv)
      as (Hr & Hs & Hkept & He).
    fold (client_unseal c k) in Hr, Hs, Hkept, He.
    set (w1 := world_after (client_unseal c k w)) in *.
    destruct (IH w1) as (Hr1 & He1 & Hopen1).
    + by apply (answers_env_kept w).
    + by rewrite Hs.
    + by rewrite Hs, Hshares.
    + cbn [for_each]. rewrite (bind_ok _ _ _ _ Hr).
      cbn [preceded returned world_after effects]. fold w1.
      rewrite He, He1. split; [exact Hr1|]. split; [reflexivity|].
      intros Hcase. apply Hopen1. left. rewrite Hs.
      destruct Hcase as [Hu|[Hle _]]; [by apply Hkeep|by apply Hopen].
Qed.

(** X16.  What [initialize_vault] stores is what [unseal_vault] reads
    back: on a transport that delivers, after [initialize_vault] has
    returned, [unseal_vault()] returns and submits exactly the keys the
    server handed out, in order, each accepted; and with a threshold of at
    most one (the default is [initialize_vault(1, 1)]) and at least one
    key, the server is unsealed afterwards. *)
Theorem initialize_then_unseal (shares thresh : Z) (w w1 : World) :
  answers w →
  returned (initialize_vault shares thresh w) = Ok tt →
  w1 = world_after (initialize_vault shares thresh w) →
  returned (unseal_vault None w1) = Ok tt ∧
  effects (unseal_vault None w1)
    = (λ k, Request None (Unseal k) Answered) <$> fresh_keys (server w) ∧
  (thresh ≤ 1 → fresh_keys (server w) ≠ [] →
   sealed (server (world_after (unseal_vault None w1))) = false).
Proof.
  intros Hw Hok ->. revert Hok. rewrite initialize_vault_run.
  rewrite (Hw (sent w)). destruct (initialized (server w)); [done|]. intros _.
  cbn [world_after]. rewrite unseal_vault_none_run.
  cbn [leader_db with_leader_db]. rewrite lookup_insert_eq, json_loads_dumps.
  match goal with |- context [for_each _ _ ?w'] => set (w1 := w') end.
  destruct (for_each_unseal_valid (mkClient VAULT_LOCALHOST_URL None)
              (fresh_keys (server w)) w1) as (Hr & He & Hopen).
  - intros n. apply Hw.
  - reflexivity.
  - apply Forall_forall. by intros k Hk.
  - split; [exact Hr|]. split; [exact He|].
    intros Hle Hne. apply Hopen. right. by split.
Qed.

Lemma initialize_then_unseal_witness :
  effects (unseal_vault None
             (world_after (initialize_vault 1 1
                             (world_of true ∅ online fresh_server))))
    = [Request None (Unseal "k1") Answered].
Proof.
  exact (proj1 (proj2 (initialize_then_unseal 1 1
                         (world_of true ∅ online fresh_server) _
                         (λ n, eq_refl) eq_refl eq_refl))).
Defined.

Lemma unseal_vault_some_run k ks w :
  unseal_vault (Some (k :: ks)) w
    = for_each (k :: ks)
        (λ key, client_unseal (mkClient VAULT_LOCALHOST_URL None) key) w.
Proof.
  unfold unseal_vault. unfold bind at 1. rewrite get_client_localhost.
  cbn [returned world_after effects]. rewrite preceded_nil.
  unfold bind at 1. cbn [ret returned world_after effects].
  by rewrite preceded_nil.
Qed.

Lemma request_with_leader_db {A} tok call (h : Handler A) db w :
  request tok call h (with_leader_db db w)
    = mkRun (returned (request tok call h w))
        (with_leader_db db (world_after (request tok call h w)))
        (effects (request tok call h w)).
Proof.
  unfold request. cbn [wire sent server with_leader_db].
  destruct (wire w (sent w)); [reflexivity|].
  by destruct (h (server w)) as [[e|a] s].
Qed.

Lemma for_each_unseal_with_leader_db c db ks : ∀ w,
  for_each ks (λ key, client_unseal c key) (with_leader_db db w)
    = mkRun (returned (for_each ks (λ key, client_unseal c key) w))
        (with_leader_db db
           (world_after (for_each ks (λ key, client_unseal c key) w)))
        (effects (for_each ks (λ key, client_unseal c key) w)).
Proof.
  induction ks as [|k ks IH]; intros w; [reflexivity|].
  assert (Hk : client_unseal c k (with_leader_db db w)
    = mkRun (returned (client_unseal c k w))
        (with_leader_db db (world_after (client_unseal c k w)))
        (effects (client_unseal c k w))) by apply request_with_leader_db.
  cbn [for_each]. unfold bind. rewrite Hk.
  cbn [returned world_after effects].
  destruct (returned (client_unseal c k w)); [|reflexivity].
  rewrite IH. reflexivity.
Qed.

(** X17.  With a non-empty list of keys [unseal_vault] does not consult
    the leader settings: whatever they hold, it returns or raises the same
    and sends the same requests.  With an empty list it behaves as with no
    argument, reading the keys from the leader settings. *)
Theorem unseal_vault_explicit_keys (k : string) (ks : list string)
    (db : gmap string string) (w : World) :
  returned (unseal_vault (Some (k :: ks)) (with_leader_db db w))
    = returned (unseal_vault (Some (k :: ks)) w) ∧
  effects (unseal_vault (Some (k :: ks)) (with_leader_db db w))
    = effects (unseal_vault (Some (k :: ks)) w) ∧
  server (world_after (unseal_vault (Some (k :: ks)) (with_leader_db db w)))
    = server (world_after (unseal_vault (Some (k :: ks)) w)) ∧
  unseal_vault (Some []) w = unseal_vault None w.
Proof.
  rewrite !unseal_vault_some_run, for_each_unseal_with_leader_db.
  by repeat split.
Qed.

Lemma for_each_unseal_fail_fast c ks : ∀ w,
  fail_fast (for_each ks (λ key, client_unseal c key) w).
Proof.
  induction ks as [|k ks IH]; intros w; [by eapply fail_fast_quiet|].
  cbn [for_each]. apply fail_fast_bind; [apply fail_fast_request|].
  intros _ _. apply IH.
Qed.

Lemma for_each_unseal_prefix c ks : ∀ w,
  ∃ n, (n ≤ length ks)%nat ∧
       omap unseal_key_of (effects (for_each ks (λ key, client_unseal c key) w))
         = take n ks ∧
       length (effects (for_each ks (λ key, client_unseal c key) w)) = n ∧
       (returned (for_each ks (λ key, client_unseal c key) w) = Ok tt →
        n = length ks).
Proof.
  induction ks as [|k ks IH]; intros w.
  - exists 0%nat. by repeat split.
  - cbn [for_each]. unfold bind.
    destruct (request_effects (token c) (Unseal k) (srv_unseal k) w) as [o Ho].
    fold (client_unseal c k) in Ho.
    destruct (returned (client_unseal c k w)) as [[]|e].
    + destruct (IH (world_after (client_unseal c k w)))
        as (n & Hn & Hkeys & Hlen & Hall).
      exists (S n). cbn [preceded returned effects]. rewrite Ho.
      cbn [app omap list_omap unseal_key_of length take].
      split; [simpl; lia|].
      split; [by rewrite <- Hkeys|]. split; [by rewrite Hlen|].
      intros Hr. by rewrite (Hall Hr).
    + exists 1%nat. cbn [returned effects]. rewrite Ho.
      split; [simpl; lia|]. by repeat split.
Qed.

(** X18.  [unseal_vault] submits the keys in the order of the list and
    stops at the first request that fails: the keys of the requests it
    sent are the first [n] keys of the list, every request before the last
    was answered, a raised exception is the one of the last request, and it
    returns only when all keys were submitted and answered. *)
Theorem unseal_vault_in_order (k : string) (ks : list string) (w : World) :
  fail_fast (unseal_vault (Some (k :: ks)) w) ∧
  ∃ n, (n ≤ length (k :: ks))%nat ∧
       omap unseal_key_of (effects (unseal_vault (Some (k :: ks)) w))
         = take n (k :: ks) ∧
       length (effects (unseal_vault (Some (k :: ks)) w)) = n ∧
       (returned (unseal_vault (Some (k :: ks)) w) = Ok tt →
        n = length (k :: ks)).
Proof.
  rewrite unseal_vault_some_run.
  split; [apply for_each_unseal_fail_fast|apply for_each_unseal_prefix].
Qed.

(** ** Backends, roles and policies *)

(** X19.  [configure_secret_backend] never enables a backend whose mount
    is listed: in every world, an [enable_secret_backend] request is sent
    only when the list request was answered and [name/] is not among the
    server's mounts, and a failing list request ends the call.  On an
    operational server where [name/] is mounted, the call is the list
    request alone and changes nothing. *)
Theorem configure_secret_backend_guard (c : Client) (name : string) (w : World) :
  fail_fast (configure_secret_backend c name w) ∧
  (Exists (λ e, is_enable_secret_backend e = true)
     (effects (configure_secret_backend c name w)) →
   name +:+ "/" ∉ secret_backends (server w)) ∧
  (wire w (sent w) = None →
   operational (server w) →
   name +:+ "/" ∈ secret_backends (server w) →
   configure_secret_backend c name w
     = mkRun (Ok tt) (after_request (server w) w)
         [Request (token c) ListSecretBackends Answered]).
Proof.
  split; [|split].
  - unfold configure_secret_backend. apply fail_fast_bind;
      [apply fail_fast_request|].
    intros backends _. destruct (negb _); [apply fail_fast_request|].
    by eapply fail_fast_quiet.
  - unfold configure_secret_backend, bind.
    destruct (request_effects (token c) ListSecretBackends
                srv_list_secret_backends w) as [o Ho].
    fold (client_list_secret_backends c) in Ho.
    destruct (returned (client_list_secret_backends c w)) as [backends|e] eqn:Hr.
    2: { cbn [effects]. rewrite Ho. intros H.
         apply Exists_cons in H as [H|H]; [done|by apply Exists_nil in H]. }
    assert (backends = secret_backends (server w)) as ->.
    { revert Hr. unfold client_list_secret_backends, request,
        srv_list_secret_backends, guarded.
      destruct (wire w (sent w)); [done|].
      destruct (initialized (server w)); [|done].
      destruct (sealed (server w)); [done|]. by intros [= <-]. }
    destruct (bool_decide (name +:+ "/" ∈ secret_backends (server w))) eqn:Hin.
    + cbn [negb ret preceded effects]. rewrite Ho. intros H.
      apply Exists_cons in H as [H|H]; [done|by apply Exists_nil in H].
    + intros _. by apply bool_decide_eq_false_1 in Hin.
  - intros Hw [Hi Hs] Hin.
    unfold configure_secret_backend, bind, client_list_secret_backends, request.
    rewrite Hw. unfold srv_list_secret_backends, guarded. rewrite Hi, Hs.
    cbn [negb returned world_after effects preceded].
    by rewrite (bool_decide_eq_true_2 _ Hin).
Qed.

Lemma configure_secret_backend_guard_witness :
  configure_secret_backend (mkClient VAULT_LOCALHOST_URL (Some "s.root"))
    "secret" (world_of true ∅ online ready_server)
  = mkRun (Ok tt)
      (after_request ready_server (world_of true ∅ online ready_server))
      [Request (Some "s.root") ListSecretBackends Answered].
Proof.
  apply (proj2 (proj2 (configure_secret_backend_guard
    (mkClient VAULT_LOCALHOST_URL (Some "s.root")) "secret"
    (world_of true ∅ online ready_server)))).
  - reflexivity.
  - split; reflexivity.
  - apply elem_of_cons. by left.
Defined.

(** X20.  [configure_approle] is an upsert of the role: on an operational
    server that answers it sends [create_role] and then [get_role_id],
    returns the role's id and leaves the role stored with token TTLs of
    60s, [bind_secret_id] false, the given CIDR and the given policies,
    replacing whatever was stored under that name and leaving the other
    roles alone.  [create_local_charm_access_role] is the same call for the
    role [local-charm-access] bound to the loopback address. *)
Theorem configure_approle_upsert (c : Client) (name cidr : string)
    (policies : list string) (w : World) :
  answers w →
  operational (server w) →
  returned (configure_approle c name cidr policies w)
    = Ok (role_id_of (server w) name) ∧
  effects (configure_approle c name cidr policies w)
    = [Request (token c)
         (CreateRole name (mkRoleSpec "60s" "60s" policies "false" cidr))
         Answered;
       Request (token c) (GetRoleId name) Answered] ∧
  role_store (server (world_after (configure_approle c name cidr policies w)))
    !! name = Some (mkRoleSpec "60s" "60s" policies "false" cidr) ∧
  (∀ n, n ≠ name →
     role_store (server (world_after (configure_approle c name cidr policies w)))
       !! n = role_store (server w) !! n) ∧
  create_local_charm_access_role c policies w
    = configure_approle c CHARM_ACCESS_ROLE "127.0.0.1/32" policies w.
Proof.
  intros Hw Hop.
  destruct (create_role_get_id_run c name
              (mkRoleSpec "60s" "60s" policies "false" cidr) w Hw Hop)
    as (Hr & Hs & _ & He).
  fold (configure_approle c name cidr policies) in Hr, Hs, He.
  split; [exact Hr|]. split; [exact He|]. rewrite Hs.
  cbn [with_role role_store].
  split; [apply lookup_insert_eq|].
  split; [intros n Hn; by apply lookup_insert_ne|reflexivity].
Qed.

Lemma configure_approle_upsert_witness :
  returned (configure_approle (mkClient VAULT_LOCALHOST_URL (Some "s.root"))
              "charm-app" "10.0.0.0/24" ["charm-app-policy"]
              (world_of true ∅ online ready_server))
    = Ok "id-charm-app".
Proof.
  apply (configure_approle_upsert
           (mkClient VAULT_LOCALHOST_URL (Some "s.root"))
           "charm-app" "10.0.0.0/24" ["charm-app-policy"]
           (world_of true ∅ online ready_server)).
  - intros n. reflexivity.
  - split; reflexivity.
Defined.

(** X21.  [configure_policy] is an unconditional upsert: it sends one
    [set_policy] request and no other (it does not look the policy up
    first); on an operational server that answers, the policy is stored
    under its name, replacing any earlier document, and the other policies,
    the roles and the mounts are left alone.  A request that fails is
    raised to the caller. *)
Theorem configure_policy_upsert (c : Client) (name hcl : string) (w : World) :
  (∃ outcome,
     effects (configure_policy c name hcl w)
       = [Request (token c) (SetPolicy name hcl) outcome]) ∧
  fail_fast (configure_policy c name hcl w) ∧
  (answers w →
   operational (server w) →
   returned (configure_policy c name hcl w) = Ok tt ∧
   server (world_after (configure_policy c name hcl w))
     = with_policy name hcl (server w) ∧
   policy_store (server (world_after (configure_policy c name hcl w))) !! name
     = Some hcl ∧
   ∀ n, n ≠ name →
     policy_store (server (world_after (configure_policy c name hcl w))) !! n
       = policy_store (server w) !! n).
Proof.
  split; [apply request_effects|]. split; [apply fail_fast_request|].
  intros Hw Hop.
  destruct (request_step (token c) (SetPolicy name hcl)
              (srv_set_policy name hcl) w tt
              (with_policy name hcl (server w)) Hw)
    as (Hr & Hs & _ & _).
  { unfold srv_set_policy. by rewrite guarded_operational. }
  fold (client_set_policy c name hcl) in Hr, Hs.
  fold (configure_policy c name hcl) in Hr, Hs.
  split; [exact Hr|]. split; [exact Hs|]. rewrite Hs.
  cbn [with_policy policy_store].
  split; [apply lookup_insert_eq|]. intros n Hn. by apply lookup_insert_ne.
Qed.

Lemma configure_policy_upsert_witness :
  returned (configure_policy (mkClient VAULT_LOCALHOST_URL (Some "s.root"))
              "charm-app-policy" (SECRET_BACKEND_SHARED_HCL "charm-app")
              (world_of true ∅ online ready_server))
    = Ok tt.
Proof.
  apply (proj2 (proj2 (configure_policy_upsert
    (mkClient VAULT_LOCALHOST_URL (Some "s.root")) "charm-app-policy"
    (SECRET_BACKEND_SHARED_HCL "charm-app")
    (world_of true ∅ online ready_server)))).
  - intros n. reflexivity.
  - split; reflexivity.
Defined.

(** X22.  The per-host policy template is the shared template of the
    host's sub-path: rendering [SECRET_BACKEND_HCL] for a backend and a
    hostname gives the same document as rendering
    [SECRET_BACKEND_SHARED_HCL] for [backend/hostname]. *)
Theorem secret_backend_hcl_shared (backend hostname : string) :
  SECRET_BACKEND_HCL backend hostname
    = SECRET_BACKEND_SHARED_HCL (backend +:+ "/" +:+ hostname).
Proof.
  unfold SECRET_BACKEND_HCL, SECRET_BACKEND_SHARED_HCL.
  by rewrite !string_app_assoc.
Qed.

(** ** Passes on followers and on a server that is ready *)

Lemma omap_unseal_key_none l :
  Forall (λ e, is_unseal_call e = false) l → omap unseal_key_of l = [].
Proof.
  induction 1 as [|e l He _ IH]; [done|]. cbn [omap list_omap].
  rewrite IH. by destruct e as [| | | |? [] ?].
Qed.

(** X23.  A follower unseals with the keys the leader published.  In a
    pass on a unit that is never the leader, when the probe reports the
    server sealed and the leader settings hold a JSON list of keys, the
    unseal requests of the pass submit the first [n] of those keys in
    order, all of them when the pass returns; and the pass sends no
    provisioning request and no [initialize]. *)
Theorem prepare_vault_follower_unseals (w : World) (h : Health) (doc : string)
    (ks : list string) :
  vault_running w = true →
  (∀ n, leader_oracle w n = false) →
  returned (get_vault_health w) = Ok h →
  h_sealed h = true →
  leader_db w !! "keys" = Some doc →
  json_loads doc = Some ks →
  ∃ n, (n ≤ length ks)%nat ∧
       omap unseal_key_of (effects (prepare_vault w)) = take n ks ∧
       (returned (prepare_vault w) = Ok tt → n = length ks) ∧
       Forall (λ e, is_provisioning e = false ∧ is_initialize_call e = false)
         (effects (prepare_vault w)).
Proof.
  intros Hrun Hfollower Hh Hsealed Hdoc Hks.
  pose proof (get_vault_health_env_kept w) as (_ & _ & Ho & Ha & Hdb & _).
  pose proof (get_vault_health_effects w) as Hhs.
  set (w0 := world_after (get_vault_health w)) in *.
  destruct (initialize_step_skipped h w0) as (Hr1 & He1 & Hdb1 & _).
  { right. by rewrite Ho, Hfollower. }
  pose proof (initialize_step_oracle h w0) as Ho1.
  set (w1 := world_after (initialize_step h w0)) in *.
  set (c := mkClient VAULT_LOCALHOST_URL None).
  assert (Hu : unseal_step h w1 = for_each ks (λ key, client_unseal c key) w1).
  { unfold unseal_step. rewrite Hsealed, unseal_vault_none_run.
    by rewrite Hdb1, Hdb, Hdoc, Hks. }
  pose proof (unseal_step_env_kept h w1) as (_ & _ & Ho2 & _).
  pose proof (prepare_vault_bootstrap_run w) as Hb. cbn zeta in Hb.
  rewrite Hh in Hb. fold w0 in Hb. rewrite Hr1 in Hb. fold w1 in Hb.
  rewrite He1 in Hb. cbn [app] in Hb. rewrite Hu in Hb, Ho2.
  destruct (for_each_unseal_prefix c ks w1) as (n & Hn & Hkeys & _ & Hall).
  pose proof (for_each_unseal_effects c ks w1) as Hus.
  exists n. split; [exact Hn|].
  assert (Hhs_u : omap unseal_key_of (effects (get_vault_health w)) = []).
  { apply omap_unseal_key_none. eapply Forall_impl; [exact Hhs|by_class]. }
  assert (Hclass : Forall (λ e, is_provisioning e = false ∧
                                is_initialize_call e = false)
            (effects (get_vault_health w)
             ++ effects (for_each ks (λ key, client_unseal c key) w1))).
  { apply Forall_app. split.
    - eapply Forall_impl; [exact Hhs|]. intros [| | | |? [] ?]; simpl; by intros.
    - eapply Forall_impl; [exact Hus|]. by intros e (k & o & ->). }
  rewrite (prepare_vault_running w Hrun).
  destruct (returned (for_each ks (λ key, client_unseal c key) w1))
    as [[]|e] eqn:Hr2.
  - rewrite (bind_ok _ _ _ h) by (by rewrite Hb).
    rewrite Hb. cbn [preceded returned world_after effects].
    rewrite prepare_vault_provision_run, Ho2, Ho1, Ho, Hfollower.
    cbn [returned effects]. rewrite app_nil_r.
    rewrite omap_app, Hhs_u. by repeat split; auto.
  - rewrite (bind_raised _ _ _ e) by (by rewrite Hb).
    rewrite Hb. cbn [returned effects].
    rewrite omap_app, Hhs_u. by repeat split.
Qed.

Lemma prepare_vault_follower_unseals_witness :
  ∃ n, (n ≤ 1)%nat ∧
       omap unseal_key_of
         (effects (prepare_vault
                     (world_of false {[ "keys" := json_dumps ["k1"] ]} online
                        sealed_server)))
         = take n ["k1"] ∧
       (returned (prepare_vault
                    (world_of false {[ "keys" := json_dumps ["k1"] ]} online
                       sealed_server)) = Ok tt → n = 1%nat) ∧
       Forall (λ e, is_provisioning e = false ∧ is_initialize_call e = false)
         (effects (prepare_vault
                     (world_of false {[ "keys" := json_dumps ["k1"] ]} online
                        sealed_server))).
Proof.
  apply (prepare_vault_follower_unseals
           (world_of false {[ "keys" := json_dumps ["k1"] ]} online sealed_server)
           (mkHealth true true) (json_dumps ["k1"]) ["k1"]).
  - reflexivity.
  - intros n. reflexivity.
  - vm_compute. reflexivity.
  - reflexivity.
  - vm_compute. reflexivity.
  - vm_compute. reflexivity.
Defined.

(** A pass by the leader on an operational server that answers. *)
Lemma prepare_vault_ready_run w :
  vault_running w = true →
  answers w →
  (∀ n, leader_oracle w n = true) →
  operational (server w) →
  returned (prepare_vault w) = Ok tt ∧
  server (world_after (prepare_vault w)) = provisioned (server w) ∧
  vault_running (world_after (prepare_vault w)) = true ∧
  wire (world_after (prepare_vault w)) = wire w ∧
  leader_oracle (world_after (prepare_vault w)) = leader_oracle w ∧
  leader_db (world_after (prepare_vault w)) = leader_db w ∧
  Forall (λ e, is_quiet e = true ∨ is_provisioning e = true)
    (effects (prepare_vault w)) ∧
  Forall (λ e, is_provisioning e = true → sent_with (leader_db w !! "token") e)
    (effects (prepare_vault w)).
Proof.
  intros Hrun Hw Hlead [Hi Hs].
  destruct (retry_from_recovers None
              (HttpGet (VAULT_HEALTH_URL VAULT_LOCALHOST_URL)) srv_health true
              (mkHealth (initialized (server w)) (sealed (server w)))
              0 9 w) as (Hr0 & Hs0 & lost & He0 & Hlen & _);
    [lia|intros i Hi0; lia|rewrite Nat.add_0_r; apply Hw|done|].
  destruct lost; [|done]. cbn [app] in He0.
  fold (requests_get_json (VAULT_HEALTH_URL VAULT_LOCALHOST_URL)) in Hr0, Hs0, He0.
  change (retry_from 9 true
            (requests_get_json (VAULT_HEALTH_URL VAULT_LOCALHOST_URL)) w)
    with (get_vault_health w) in Hr0, Hs0, He0.
  rewrite Hi, Hs in Hr0.
  pose proof (get_vault_health_env_kept w) as (Hrun0 & _ & Ho0 & _ & Hdb0 & Hwire0).
  set (w0 := world_after (get_vault_health w)) in *.
  pose proof (prepare_vault_bootstrap_run w) as Hb. cbn zeta in Hb.
  rewrite Hr0 in Hb. fold w0 in Hb.
  unfold initialize_step, unseal_step in Hb.
  cbn [h_initialized h_sealed negb ret returned world_after effects] in Hb.
  rewrite He0 in Hb. cbn [app] in Hb.
  rewrite (prepare_vault_running w Hrun).
  rewrite (bind_ok _ _ _ (mkHealth true false)) by (by rewrite Hb).
  rewrite Hb. cbn [preceded returned world_after effects].
  rewrite prepare_vault_provision_run, Ho0, Hlead.
  destruct (setup_charm_vault_access_run None (with_leader_asked w0))
    as (Hr & Hsrv & (Hrun1 & _ & Ho1 & _ & Hdb1 & Hwire1) & He).
  { intros n. cbn [wire with_leader_asked]. rewrite Hwire0. apply Hw. }
  { cbn [server with_leader_asked]. rewrite Hs0. by split. }
  pose proof (setup_charm_vault_access_provisions None (with_leader_asked w0))
    as Hprov.
  destruct (setup_charm_vault_access_requests None (with_leader_asked w0))
    as (Htok & _).
  unfold resolved_token in Htok.
  cbn [truthy leader_db with_leader_asked] in Htok. rewrite Hdb0 in Htok.
  rewrite (bind_ok _ _ _ _ Hr).
  cbn [preceded ret returned world_after effects].
  split; [done|]. split; [by rewrite Hsrv; cbn [server with_leader_asked]; rewrite Hs0|].
  split; [by rewrite Hrun1; cbn [vault_running with_leader_asked]; rewrite Hrun0|].
  split; [by rewrite Hwire1|]. split; [by rewrite Ho1|].
  split; [by rewrite Hdb1|].
  rewrite app_nil_r. split.
  - constructor; [by left|].
    eapply Forall_impl; [exact Hprov|]. by right.
  - constructor; [done|].
    eapply Forall_impl; [exact Htok|]. by intros e He' _.
Qed.

(** X24.  Re-running the pass on a ready server.  With the process
    running, the unit leader, the server initialised and unsealed and its
    API answering, a pass sends only the health probe and provisioning
    requests (no [initialize], no unseal) and writes nothing to the leader
    settings; its provisioning requests carry the leader setting [token],
    whatever that is.  A second pass right after it ends as the first one
    did and leaves the server exactly as the first one left it. *)
Theorem prepare_vault_reentrant (w w1 : World) :
  vault_running w = true →
  answers w →
  (∀ n, leader_oracle w n = true) →
  operational (server w) →
  w1 = world_after (prepare_vault w) →
  Forall (λ e, is_quiet e = true ∨ is_provisioning e = true)
    (effects (prepare_vault w)) ∧
  Forall (λ e, is_provisioning e = true → sent_with (leader_db w !! "token") e)
    (effects (prepare_vault w)) ∧
  leader_db w1 = leader_db w ∧
  returned (prepare_vault w1) = returned (prepare_vault w) ∧
  leader_db (world_after (prepare_vault w1)) = leader_db w ∧
  server (world_after (prepare_vault w1)) = server w1.
Proof.
  intros Hrun Hw Hlead Hop ->.
  destruct (prepare_vault_ready_run w Hrun Hw Hlead Hop)
    as (Hr & Hs & Hrun1 & Hwire1 & Ho1 & Hdb1 & He & Htok).
  set (w1 := world_after (prepare_vault w)) in *.
  destruct (prepare_vault_ready_run w1) as (Hr2 & Hs2 & _ & _ & _ & Hdb2 & _).
  - exact Hrun1.
  - intros n. rewrite Hwire1. apply Hw.
  - intros n. rewrite Ho1. apply Hlead.
  - rewrite Hs. by apply provisioned_operational.
  - split; [exact He|]. split; [exact Htok|]. split; [exact Hdb1|].
    split; [by rewrite Hr, Hr2|]. split; [by rewrite Hdb2, Hdb1|].
    by rewrite Hs2, Hs, provisioned_idem.
Qed.

Lemma prepare_vault_reentrant_witness :
  server (world_after
            (prepare_vault
               (world_after
                  (prepare_vault
                     (world_of true {[ "token" := "s.root" ]} online
                        ready_server)))))
    = server (world_after
                (prepare_vault
                   (world_of true {[ "token" := "s.root" ]} online
                      ready_server))).
Proof.
  exact (proj2 (proj2 (proj2 (proj2 (proj2
           (prepare_vault_reentrant
              (world_of true {[ "token" := "s.root" ]} online ready_server) _
              eq_refl (λ n, eq_refl) (λ n, eq_refl)
              (conj eq_refl eq_refl) eq_refl)))))).
Defined.
